(** * Rongyok video downloader: resumable transfer engine, state snapshot
      and episode selection, embedded from [downloader.py] and [cli.py].

    Python values are embedded as follows.  [int] is [Z]; [str] is [string]
    (ASCII text, one [ascii] per character); [bytes] is [list byte]; a
    [dict] keyed by strings is a [gmap string _]; a [set] of integers is a
    [gset Z]; a [dataclass] is a [Record].  A call that may raise returns an
    [outcome]. *)

From Stdlib Require Import ZArith NArith String Ascii List Bool Lia.
From Stdlib Require Import Decimal DecimalString DecimalN DecimalPos DecimalFacts.
From stdpp Require Import base decidable option list gmap strings sorting.

Import ListNotations.
Local Open Scope string_scope.
Local Open Scope list_scope.

(** ** Python text and integer primitives *)

Module Py.

(** [str.isspace] on ASCII: TAB..CR, FS..US and the blank. *)
Definition isspace (c : ascii) : bool :=
  let n := nat_of_ascii c in
  ((9 <=? n)%nat && (n <=? 13)%nat) || ((28 <=? n)%nat && (n <=? 32)%nat).

(** [\d] and the digits [int] accepts, on ASCII. *)
Definition isdigit (c : ascii) : bool :=
  let n := nat_of_ascii c in (48 <=? n)%nat && (n <=? 57)%nat.

Definition digit_val (c : ascii) : Z := Z.of_nat (nat_of_ascii c) - 48.

(** [str.lower] on ASCII. *)
Definition lower_char (c : ascii) : ascii :=
  let n := nat_of_ascii c in
  if (65 <=? n)%nat && (n <=? 90)%nat then ascii_of_nat (n + 32) else c.

Fixpoint lower (s : string) : string :=
  match s with
  | EmptyString => EmptyString
  | String c r => String (lower_char c) (lower r)
  end.

(** [c in s] for a one-character needle. *)
Fixpoint contains (c : ascii) (s : string) : bool :=
  match s with
  | EmptyString => false
  | String a r => Ascii.eqb a c || contains c r
  end.

Fixpoint lstrip (s : string) : string :=
  match s with
  | String c r => if isspace c then lstrip r else s
  | EmptyString => EmptyString
  end.

Fixpoint rstrip (s : string) : string :=
  match s with
  | EmptyString => EmptyString
  | String c r =>
      match rstrip r with
      | EmptyString => if isspace c then EmptyString else String c EmptyString
      | r' => String c r'
      end
  end.

(** [s.strip()] *)
Definition strip (s : string) : string := rstrip (lstrip s).

(** [s.split(sep)] for a one-character separator: never an empty list. *)
Fixpoint split (sep : ascii) (s : string) : list string :=
  match s with
  | EmptyString => [EmptyString]
  | String c r =>
      if Ascii.eqb c sep then EmptyString :: split sep r
      else match split sep r with
           | w :: ws => String c w :: ws
           | [] => [String c EmptyString]
           end
  end.

(** [s.split(sep)[-1]] *)
Definition last_field (sep : ascii) (s : string) : string :=
  List.last (split sep s) EmptyString.

(** The longest run of digits at the head of [s], and what follows it. *)
Fixpoint span_digits (s : string) : string * string :=
  match s with
  | String c r =>
      if isdigit c then let '(d, t) := span_digits r in (String c d, t)
      else (EmptyString, s)
  | EmptyString => (EmptyString, EmptyString)
  end.

(** Value of a run of digits, most significant first. *)
Fixpoint digits_val (acc : Z) (s : string) : Z :=
  match s with
  | EmptyString => acc
  | String c r => digits_val (10 * acc + digit_val c) r
  end.

(** The body of an integer literal as [int(str)] reads it: digits, with
    single underscores allowed between two digits.  [prev] tells whether
    the previous character was a digit. *)
Fixpoint int_body (prev : bool) (acc : Z) (s : string) : option Z :=
  match s with
  | EmptyString => if prev then Some acc else None
  | String c r =>
      if isdigit c then int_body true (10 * acc + digit_val c) r
      else if Ascii.eqb c "_" && prev then
        match r with
        | String c' _ => if isdigit c' then int_body false acc r else None
        | EmptyString => None
        end
      else None
  end.

(** [int(s)] for a string: [None] stands for [ValueError]. *)
Definition int_of_str (s : string) : option Z :=
  match strip s with
  | String "+" r => int_body false 0 r
  | String "-" r => Z.opp <$> int_body false 0 r
  | t => int_body false 0 t
  end.

(** [str(n)] for a natural number. *)
Definition digits (n : N) : string := NilZero.string_of_uint (N.to_uint n).

Fixpoint zeros (k : nat) : string :=
  match k with
  | O => EmptyString
  | S k' => String "0" (zeros k')
  end.

Definition lpad0 (w : nat) (s : string) : string :=
  zeros (w - String.length s) ++ s.

(** [format(z, '0{w}d')]: zero padding goes between the sign and the
    digits. *)
Definition format_0d (w : nat) (z : Z) : string :=
  if (z <? 0)%Z then String "-" (lpad0 (w - 1) (digits (Z.abs_N z)))
  else lpad0 w (digits (Z.abs_N z)).

(** [str(z)] *)
Definition str_int (z : Z) : string := format_0d 0 z.

(** [range(a, b)] *)
Definition range (a b : Z) : list Z := seqZ a (b - a).

End Py.

(** ** Paths *)

(** A [pathlib.Path] below the output directory: the directory and the
    last component. *)
Record Path := { parent : string; name : string }.

Module PathOps.

(** [Path(dir) / name] *)
Definition join (dir nm : string) : Path := {| parent := dir; name := nm |}.

(** Splits at the last dot: what precedes it, and the rest from the dot
    on. *)
Fixpoint rsplit_dot (s : string) : option (string * string) :=
  match s with
  | EmptyString => None
  | String c r =>
      match rsplit_dot r with
      | Some (a, b) => Some (String c a, b)
      | None => if Ascii.eqb c "." then Some (EmptyString, s) else None
      end
  end.

(** [PurePath.suffix], returned with the stem it leaves: the suffix starts
    at the last dot unless that dot opens or closes the name. *)
Definition split_suffix (nm : string) : string * string :=
  match rsplit_dot nm with
  | Some (a, b) =>
      if ((0 <? String.length a) && (1 <? String.length b))%nat then (a, b)
      else (nm, EmptyString)
  | None => (nm, EmptyString)
  end.

(** [p.with_suffix(suffix)] for a well-formed [suffix]. *)
Definition with_suffix (p : Path) (suffix : string) : Path :=
  {| parent := parent p; name := fst (split_suffix (name p)) ++ suffix |}.

End PathOps.

(** ** Episode selection ([cli.py]) *)

Module Cli.

(** [re.match(r'(\d+)-(\d+)', part)] with both groups read by [int]: the
    match is anchored at the start only, and both groups are greedy. *)
Definition match_range (part : string) : option (Z * Z) :=
  let '(a, t) := Py.span_digits part in
  match a, t with
  | String _ _, String "-" r =>
      let '(b, _) := Py.span_digits r in
      match b with
      | String _ _ => Some (Py.digits_val 0 a, Py.digits_val 0 b)
      | EmptyString => None
      end
  | _, _ => None
  end.

(** One turn of the loop over [episode_str.split(',')]. *)
Definition parse_part (max_episode : Z) (episodes : gset Z) (part0 : string)
  : gset Z :=
  let part := Py.strip part0 in
  if Py.contains "-" part then
    match match_range part with
    | Some (s, e) =>
        let start := Z.max 1 (Z.min s max_episode) in
        let end_ := Z.max 1 (Z.min e max_episode) in
        episodes ∪ list_to_set (Py.range start (end_ + 1))
    | None => episodes
    end
  else
    match Py.int_of_str part with
    | Some ep =>
        if ((1 <=? ep) && (ep <=? max_episode))%Z then episodes ∪ {[ ep ]}
        else episodes
    | None => episodes
    end.

(** [sorted(s)] for a set of integers. *)
Definition sorted (s : gset Z) : list Z := merge_sort Z.le (elements s).

Definition parse_episode_range (episode_str : string) (max_episode : Z)
  : list Z :=
  if String.eqb (Py.lower episode_str) "all" then Py.range 1 (max_episode + 1)
  else sorted (foldl (parse_part max_episode) ∅ (Py.split "," episode_str)).

End Cli.

(** ** Exceptions *)

Inductive exn :=
  | FileNotFoundError
  | JSONDecodeError
  | UnicodeDecodeError
  | RecursionError
  | OSError
  | TypeError
  | AttributeError
  | ValueError
  | RequestException.

Inductive outcome (A : Type) :=
  | Returned (a : A)
  | Raised (e : exn).

Arguments Returned {A} a.
Arguments Raised {A} e.

Global Instance Path_eq_dec : EqDecision Path.
Proof. solve_decision. Defined.

Global Instance Path_countable : Countable Path :=
  inj_countable' (λ p, (parent p, name p)) (λ q, {| parent := q.1; name := q.2 |})
    (λ p, match p with Build_Path _ _ => eq_refl end).

(** ** Persisted session state ([DownloadProgress], [DownloadState]) *)

(** A value read by [json.load]; numbers are integers. *)
#[warnings="-register-all"]
Inductive json :=
  | JNull
  | JBool (b : bool)
  | JInt (n : Z)
  | JStr (s : string)
  | JList (l : list json)
  | JDict (m : gmap string json).

(** Python truth value of a JSON value. *)
Definition truthy (v : json) : bool :=
  match v with
  | JNull => false
  | JBool b => b
  | JInt n => negb (n =? 0)%Z
  | JStr s => negb (String.eqb s "")
  | JList l => match l with [] => false | _ => true end
  | JDict m => negb (Nat.eqb (size m) 0)
  end.

(** What [open(path, 'r', encoding='utf-8')] followed by [json.load] does
    with a file, by the contract of the two library calls. *)
Inductive text_file :=
  | Document (data : json)   (* UTF-8 text that is a JSON text, read as
                                [data] *)
  | Malformed                (* UTF-8 text that the parser rejects:
                                [JSONDecodeError] *)
  | Undecodable              (* bytes that are no UTF-8 text: the read
                                raises [UnicodeDecodeError] *)
  | TooDeep                  (* a JSON text nested deeper than the parser
                                can follow: [RecursionError] *)
  | Unreadable.              (* [open] is refused: an [OSError] other than
                                [FileNotFoundError] *)

(** The records as Python holds them after [load]: the fields are whatever
    the snapshot contained, since a dataclass does not check its
    annotations. *)
Module Dyn.

Record DownloadProgress := {
  episode : json;
  downloaded_bytes : json;
  total_bytes : json;
  completed : json
}.

(** The [current_progress] attribute: a value left as found, or a
    [DownloadProgress] object. *)
Inductive slot :=
  | Plain (v : json)
  | Progress (p : DownloadProgress).

Record DownloadState := {
  series_id : json;
  series_title : json;
  total_episodes : json;
  output_dir : json;
  selected_episodes : json;
  completed_episodes : json;
  current_episode : json;
  current_progress : slot
}.

End Dyn.

Module Store.

Record DownloadProgress := {
  episode : Z;
  downloaded_bytes : Z;
  total_bytes : Z;
  completed : bool
}.

Record DownloadState := {
  series_id : Z;
  series_title : string;
  total_episodes : Z;
  output_dir : string;
  selected_episodes : list Z;
  completed_episodes : list Z;
  current_episode : option Z;
  current_progress : option DownloadProgress
}.

Definition opt_int (o : option Z) : json :=
  match o with Some n => JInt n | None => JNull end.

(** [asdict] of a [DownloadProgress]. *)
Definition asdict_progress (p : DownloadProgress) : json :=
  JDict (<["episode" := JInt (episode p)]>
        (<["downloaded_bytes" := JInt (downloaded_bytes p)]>
        (<["total_bytes" := JInt (total_bytes p)]>
        (<["completed" := JBool (completed p)]> ∅)))).

(** [asdict(self)]: nested dataclasses become dictionaries. *)
Definition asdict (s : DownloadState) : json :=
  JDict (<["series_id" := JInt (series_id s)]>
        (<["series_title" := JStr (series_title s)]>
        (<["total_episodes" := JInt (total_episodes s)]>
        (<["output_dir" := JStr (output_dir s)]>
        (<["selected_episodes" := JList (JInt <$> selected_episodes s)]>
        (<["completed_episodes" := JList (JInt <$> completed_episodes s)]>
        (<["current_episode" := opt_int (current_episode s)]>
        (<["current_progress" :=
             match current_progress s with
             | Some p => asdict_progress p
             | None => JNull
             end]> ∅)))))))).

(** [self.save(path)]: the snapshot replaces whatever the file held. *)
Definition save (s : DownloadState) (path : Path)
    (docs : gmap Path text_file) : gmap Path text_file :=
  <[path := Document (asdict s)]> docs.

Definition progress_fields : gset string :=
  {[ "episode"; "downloaded_bytes"; "total_bytes"; "completed" ]}.

Definition state_fields : gset string :=
  {[ "series_id"; "series_title"; "total_episodes"; "output_dir";
     "selected_episodes"; "completed_episodes"; "current_episode";
     "current_progress" ]}.

(** [DownloadProgress] called with the keyword arguments [v]: [v] must be
    a mapping whose keys are field names and cover the fields without
    default. *)
Definition new_progress (v : json) : outcome Dyn.DownloadProgress :=
  match v with
  | JDict kw =>
      if bool_decide (dom kw ⊆ progress_fields) then
        match kw !! "episode", kw !! "downloaded_bytes", kw !! "total_bytes" with
        | Some e, Some d, Some t =>
            Returned {| Dyn.episode := e;
                        Dyn.downloaded_bytes := d;
                        Dyn.total_bytes := t;
                        Dyn.completed := default (JBool false) (kw !! "completed") |}
        | _, _, _ => Raised TypeError
        end
      else Raised TypeError
  | _ => Raised TypeError
  end.

(** [cls] called with the keyword arguments [data], where [cp] is the
    value stored under the key current_progress when it is present. *)
Definition new_state (data : gmap string json) (cp : option Dyn.slot)
  : outcome Dyn.DownloadState :=
  if bool_decide (dom data ⊆ state_fields) then
    match data !! "series_id", data !! "series_title",
          data !! "total_episodes", data !! "output_dir",
          data !! "selected_episodes", data !! "completed_episodes" with
    | Some a, Some b, Some c, Some d, Some e, Some f =>
        Returned {| Dyn.series_id := a;
                    Dyn.series_title := b;
                    Dyn.total_episodes := c;
                    Dyn.output_dir := d;
                    Dyn.selected_episodes := e;
                    Dyn.completed_episodes := f;
                    Dyn.current_episode := default JNull (data !! "current_episode");
                    Dyn.current_progress := default (Dyn.Plain JNull) cp |}
    | _, _, _, _, _, _ => Raised TypeError
    end
  else Raised TypeError.

(** The body of the [try] block of [load]. *)
Definition load_body (docs : gmap Path text_file) (path : Path)
  : outcome Dyn.DownloadState :=
  match docs !! path with
  | None => Raised FileNotFoundError
  | Some Unreadable => Raised OSError
  | Some Undecodable => Raised UnicodeDecodeError
  | Some Malformed => Raised JSONDecodeError
  | Some TooDeep => Raised RecursionError
  | Some (Document (JDict data)) =>
      match data !! "current_progress" with
      | Some v =>
          if truthy v then
            match new_progress v with
            | Returned p => new_state data (Some (Dyn.Progress p))
            | Raised e => Raised e
            end
          else new_state data (Some (Dyn.Plain v))
      | None => new_state data None
      end
  | Some (Document _) => Raised AttributeError
  end.

(** [DownloadState.load(path)]: the [except] clause turns exactly two
    exceptions into [None]; [UnicodeDecodeError] is a [ValueError] as
    [JSONDecodeError] is, but no [JSONDecodeError], and is not caught. *)
Definition load (docs : gmap Path text_file) (path : Path)
  : outcome (option Dyn.DownloadState) :=
  match load_body docs path with
  | Returned s => Returned (Some s)
  | Raised FileNotFoundError => Returned None
  | Raised JSONDecodeError => Returned None
  | Raised e => Raised e
  end.

(** The loaded object seen through the annotations of the dataclasses. *)
Definition reflect_progress (p : DownloadProgress) : Dyn.DownloadProgress :=
  {| Dyn.episode := JInt (episode p);
     Dyn.downloaded_bytes := JInt (downloaded_bytes p);
     Dyn.total_bytes := JInt (total_bytes p);
     Dyn.completed := JBool (completed p) |}.

Definition reflect (s : DownloadState) : Dyn.DownloadState :=
  {| Dyn.series_id := JInt (series_id s);
     Dyn.series_title := JStr (series_title s);
     Dyn.total_episodes := JInt (total_episodes s);
     Dyn.output_dir := JStr (output_dir s);
     Dyn.selected_episodes := JList (JInt <$> selected_episodes s);
     Dyn.completed_episodes := JList (JInt <$> completed_episodes s);
     Dyn.current_episode := opt_int (current_episode s);
     Dyn.current_progress :=
       match current_progress s with
       | Some p => Dyn.Progress (reflect_progress p)
       | None => Dyn.Plain JNull
       end |}.

End Store.

(** ** The download engine ([VideoDownloader]) *)

Module Engine.

Definition CHUNK_SIZE : Z := 1024 * 1024.

(** [parser.EpisodeInfo] *)
Record EpisodeInfo := {
  episode_number : Z;
  title : string;
  video_url : string
}.

Record VideoDownloader := {
  output_dir : string;
  state : option Store.DownloadState;
  _paused : bool;
  _cancelled : bool
}.

Definition state_file (d : VideoDownloader) : Path :=
  PathOps.join (output_dir d) "download_state.json".

Definition set_state (d : VideoDownloader) (s : option Store.DownloadState)
  : VideoDownloader :=
  {| output_dir := output_dir d; state := s;
     _paused := _paused d; _cancelled := _cancelled d |}.

Definition set_flags (d : VideoDownloader) (p c : bool) : VideoDownloader :=
  {| output_dir := output_dir d; state := state d;
     _paused := p; _cancelled := c |}.

Definition pause (d : VideoDownloader) := set_flags d true (_cancelled d).
Definition resume (d : VideoDownloader) := set_flags d false (_cancelled d).
Definition cancel (d : VideoDownloader) := set_flags d (_paused d) true.
Definition reset (d : VideoDownloader) := set_flags d false false.
Definition is_paused (d : VideoDownloader) : bool := _paused d.
Definition is_cancelled (d : VideoDownloader) : bool := _cancelled d.

(** Assignments to the attributes of [self.state]. *)
Definition with_current_episode (s : Store.DownloadState) (v : option Z)
  : Store.DownloadState :=
  {| Store.series_id := Store.series_id s;
     Store.series_title := Store.series_title s;
     Store.total_episodes := Store.total_episodes s;
     Store.output_dir := Store.output_dir s;
     Store.selected_episodes := Store.selected_episodes s;
     Store.completed_episodes := Store.completed_episodes s;
     Store.current_episode := v;
     Store.current_progress := Store.current_progress s |}.

Definition with_current_progress (s : Store.DownloadState)
    (v : option Store.DownloadProgress) : Store.DownloadState :=
  {| Store.series_id := Store.series_id s;
     Store.series_title := Store.series_title s;
     Store.total_episodes := Store.total_episodes s;
     Store.output_dir := Store.output_dir s;
     Store.selected_episodes := Store.selected_episodes s;
     Store.completed_episodes := Store.completed_episodes s;
     Store.current_episode := Store.current_episode s;
     Store.current_progress := v |}.

Definition with_completed_episodes (s : Store.DownloadState) (l : list Z)
  : Store.DownloadState :=
  {| Store.series_id := Store.series_id s;
     Store.series_title := Store.series_title s;
     Store.total_episodes := Store.total_episodes s;
     Store.output_dir := Store.output_dir s;
     Store.selected_episodes := Store.selected_episodes s;
     Store.completed_episodes := l;
     Store.current_episode := Store.current_episode s;
     Store.current_progress := Store.current_progress s |}.

(** *** The file system

    The artifacts ([ep_NN.mp4], [ep_NN.mp4.part]) and the JSON snapshot
    never share a name, so they are kept in two maps.  [faults] lists the
    operations the operating system refuses. *)

Record Faults := {
  part_denied : bool;       (* [open(temp_file, mode)] raises *)
  space : option Z;         (* bytes that can still be written; [None]: no limit *)
  rename_denied : bool;     (* [temp_file.rename] raises *)
  snapshot_denied : bool    (* [open(state_file, 'w')] raises *)
}.

Definition no_faults : Faults :=
  {| part_denied := false; space := None;
     rename_denied := false; snapshot_denied := false |}.

Record Disk := {
  artifacts : gmap Path (list Byte.byte);
  documents : gmap Path text_file;
  faults : Faults
}.

Definition set_artifacts (k : Disk) (a : gmap Path (list Byte.byte)) : Disk :=
  {| artifacts := a; documents := documents k; faults := faults k |}.

Definition set_documents (k : Disk) (m : gmap Path text_file) : Disk :=
  {| artifacts := artifacts k; documents := m; faults := faults k |}.

Definition set_space (k : Disk) (v : option Z) : Disk :=
  {| artifacts := artifacts k; documents := documents k;
     faults := {| part_denied := part_denied (faults k); space := v;
                  rename_denied := rename_denied (faults k);
                  snapshot_denied := snapshot_denied (faults k) |} |}.

(** [self._save_state()] *)
Definition _save_state (d : VideoDownloader) (k : Disk) : outcome Disk :=
  match state d with
  | Some s =>
      if snapshot_denied (faults k) then Raised OSError
      else Returned (set_documents k (Store.save s (state_file d) (documents k)))
  | None => Returned k
  end.

(** [self.get_episode_filename(episode)] *)
Definition get_episode_filename (d : VideoDownloader) (episode : Z) : Path :=
  PathOps.join (output_dir d) ("ep_" ++ Py.format_0d 2 episode ++ ".mp4").

(** [self.get_remaining_episodes()] *)
Definition get_remaining_episodes (d : VideoDownloader) : list Z :=
  match state d with
  | None => []
  | Some s =>
      filter (λ ep, ep ∉ Store.completed_episodes s) (Store.selected_episodes s)
  end.

(** *** The network *)

Record Request := {
  url : string;
  headers : gmap string string
}.

(** The two response headers the engine reads. *)
Record Headers := {
  content_range : option string;
  content_length : option string
}.

(** Calls made on the control plane by the driver while a transfer runs. *)
Inductive action := Pause | Resume | Cancel | Reset.

(** What happens, in order, while the body of a response is streamed:
    [iter_content] yields a chunk, the connection fails
    ([requests.RequestException]), or the driver acts on the control
    plane. *)
Inductive event :=
  | Control (a : action)
  | Chunk (data : list Byte.byte)
  | Broken.

(** The answer to [session.get]: it raises, or returns a response. *)
Inductive Reply :=
  | Refused
  | Response (status_code : Z) (hdrs : Headers) (body : list event).

(** How a call ends: it returns or raises, or it is still sleeping in the
    pause loop when the driver stops acting. *)
Inductive ending (A : Type) :=
  | Finished (r : outcome A)
  | Waiting.

Arguments Finished {A} r.
Arguments Waiting {A}.

Record Result := {
  ended : ending bool;
  downloader : VideoDownloader;
  disk : Disk;
  requests : list Request
}.

Definition control (a : action) (d : VideoDownloader) : VideoDownloader :=
  match a with
  | Pause => pause d
  | Resume => resume d
  | Cancel => cancel d
  | Reset => reset d
  end.

(** [f.write(chunk)] on the partial artifact opened at [p]. *)
Definition write (p : Path) (chunk : list Byte.byte) (k : Disk) : outcome Disk :=
  let n := Z.of_nat (length chunk) in
  let k' := set_artifacts k (alter (λ old, old ++ chunk) p (artifacts k)) in
  match space (faults k) with
  | Some free =>
      if (free <? n)%Z then Raised OSError else Returned (set_space k' (Some (free - n)%Z))
  | None => Returned k'
  end.

(** [open(temp_file, mode)]: ['ab'] keeps what is there, ['wb'] empties
    it; both create the file. *)
Definition open_part (p : Path) (append : bool) (k : Disk) : outcome Disk :=
  if part_denied (faults k) then Raised OSError
  else
    let old := if append then default [] (artifacts k !! p) else [] in
    Returned (set_artifacts k (<[p := old]> (artifacts k))).

(** [temp_file.rename(output_file)] *)
Definition rename (src dst : Path) (k : Disk) : outcome Disk :=
  if rename_denied (faults k) then Raised OSError
  else
    match artifacts k !! src with
    | Some data => Returned (set_artifacts k (<[dst := data]> (delete src (artifacts k))))
    | None => Raised FileNotFoundError
    end.

(** State of the streaming loop: the engine, the disk and the two
    counters [downloaded_bytes] and [bytes_since_last_update]. *)
Record Transfer := {
  dl : VideoDownloader;
  dk : Disk;
  downloaded : Z;
  since_update : Z
}.

Inductive step :=
  | Continue (t : Transfer)
  | Stop (r : Result).

Section Loop.

Variable episode : Z.
Variable total_bytes : Z.
Variables temp_file output_file : Path.
Variable log : list Request.

Definition exit (e : ending bool) (d : VideoDownloader) (k : Disk) : Result :=
  {| ended := e; downloader := d; disk := k; requests := log |}.

(** [self._save_state(); return b] *)
Definition save_and_return (b : bool) (d : VideoDownloader) (k : Disk) : Result :=
  match _save_state d k with
  | Returned k' => exit (Finished (Returned b)) d k'
  | Raised e => exit (Finished (Raised e)) d k
  end.

Definition progress_at (n : Z) : Store.DownloadProgress :=
  {| Store.episode := episode;
     Store.downloaded_bytes := n;
     Store.total_bytes := total_bytes;
     Store.completed := false |}.

(** The loop body once the pause loop is left: the cancel check, the
    write and the periodic checkpoint. *)
Definition body (chunk : list Byte.byte) (t : Transfer) : step :=
  if _cancelled (dl t) then Stop (save_and_return false (dl t) (dk t))
  else
    match chunk with
    | [] => Continue t
    | _ :: _ =>
        match write temp_file chunk (dk t) with
        | Raised e => Stop (exit (Finished (Raised e)) (dl t) (dk t))
        | Returned k1 =>
            let n := Z.of_nat (length chunk) in
            let downloaded' := (downloaded t + n)%Z in
            let since' := (since_update t + n)%Z in
            let go_on :=
              Continue {| dl := dl t; dk := k1;
                          downloaded := downloaded'; since_update := since' |} in
            match state (dl t) with
            | Some s =>
                if (CHUNK_SIZE * 5 <=? since')%Z then
                  let d' := set_state (dl t)
                              (Some (with_current_progress s
                                       (Some (progress_at downloaded')))) in
                  match _save_state d' k1 with
                  | Returned k2 =>
                      Continue {| dl := d'; dk := k2;
                                  downloaded := downloaded'; since_update := 0 |}
                  | Raised e => Stop (exit (Finished (Raised e)) d' k1)
                  end
                else go_on
            | None => go_on
            end
        end
    end.

(** After the loop: the rename, then the completion mark. *)
Definition commit (t : Transfer) : Result :=
  match rename temp_file output_file (dk t) with
  | Raised e => exit (Finished (Raised e)) (dl t) (dk t)
  | Returned k1 =>
      match state (dl t) with
      | Some s =>
          let done :=
            if bool_decide (episode ∈ Store.completed_episodes s)
            then Store.completed_episodes s
            else Store.completed_episodes s ++ [episode] in
          let s' := with_current_progress
                      (with_current_episode (with_completed_episodes s done) None)
                      None in
          save_and_return true (set_state (dl t) (Some s')) k1
      | None => exit (Finished (Returned true)) (dl t) k1
      end
  end.

Definition held (d : VideoDownloader) : bool := _paused d && negb (_cancelled d).

(** The [for chunk in response.iter_content(...)] loop.  [pending] is the
    chunk in hand while the pause loop sleeps; the sleep only ends on an
    action of the driver. *)
Fixpoint stream (evs : list event) (pending : option (list Byte.byte))
    (t : Transfer) : Result :=
  match evs with
  | [] =>
      match pending with
      | None => commit t
      | Some _ => exit Waiting (dl t) (dk t)
      end
  | ev :: rest =>
      match pending, ev with
      | None, Control a =>
          stream rest None
            {| dl := control a (dl t); dk := dk t;
               downloaded := downloaded t; since_update := since_update t |}
      | None, Broken => save_and_return false (dl t) (dk t)
      | None, Chunk c =>
          if held (dl t) then stream rest (Some c) t
          else match body c t with
               | Continue t' => stream rest None t'
               | Stop r => r
               end
      | Some c, Control a =>
          let t' := {| dl := control a (dl t); dk := dk t;
                       downloaded := downloaded t;
                       since_update := since_update t |} in
          if held (dl t') then stream rest (Some c) t'
          else match body c t' with
               | Continue t'' => stream rest None t''
               | Stop r => r
               end
      | Some _, _ => exit Waiting (dl t) (dk t)
      end
  end.

End Loop.

(** The classification of the response (the [if]/[elif]/[else] on
    [status_code]): the total size and the offset to continue from, a
    header [int] rejects, or another status. *)
Inductive classified :=
  | Sized (total_bytes downloaded_bytes : Z)
  | BadHeader
  | OtherStatus.

Definition classify (status : Z) (hdrs : Headers) (downloaded_bytes : Z)
  : classified :=
  if (status =? 206)%Z then
    let cr := default "" (content_range hdrs) in
    if Py.contains "/" cr then
      match Py.int_of_str (Py.last_field "/" cr) with
      | Some n => Sized n downloaded_bytes
      | None => BadHeader
      end
    else Sized 0 downloaded_bytes
  else if (status =? 200)%Z then
    match content_length hdrs with
    | Some v =>
        match Py.int_of_str v with
        | Some n => Sized n 0
        | None => BadHeader
        end
    | None => Sized 0 0
    end
  else OtherStatus.

(** [self.download_episode(episode_info)].  The progress bar, the progress
    callback and the clock only feed the display and are left out. *)
Definition download_episode (d : VideoDownloader) (k : Disk)
    (server : Request → Reply) (episode_info : EpisodeInfo) : Result :=
  let ep := episode_number episode_info in
  let output_file := get_episode_filename d ep in
  let temp_file := PathOps.with_suffix output_file ".mp4.part" in
  let downloaded_bytes :=
    match artifacts k !! temp_file with
    | Some data => Z.of_nat (length data)
    | None => 0%Z
    end in
  let d1 :=
    match state d with
    | Some s => set_state d (Some (with_current_episode s (Some ep)))
    | None => d
    end in
  let hs : gmap string string :=
    if (0 <? downloaded_bytes)%Z
    then {[ "Range" := ("bytes=" ++ Py.str_int downloaded_bytes ++ "-")%string ]}
    else ∅ in
  let req := {| url := video_url episode_info; headers := hs |} in
  let log := [req] in
  match server req with
  | Refused => save_and_return log false d1 k
  | Response status hdrs evs =>
      match classify status hdrs downloaded_bytes with
      | OtherStatus => exit log (Finished (Returned false)) d1 k
      | BadHeader => exit log (Finished (Raised ValueError)) d1 k
      | Sized total_bytes downloaded_bytes =>
          let d2 :=
            match state d1 with
            | Some s =>
                set_state d1
                  (Some (with_current_progress s
                           (Some (progress_at ep total_bytes downloaded_bytes))))
            | None => d1
            end in
          match _save_state d2 k with
          | Raised e => exit log (Finished (Raised e)) d2 k
          | Returned k1 =>
              let append := (0 <? downloaded_bytes)%Z && (status =? 206)%Z in
              match open_part temp_file append k1 with
              | Raised e => exit log (Finished (Raised e)) d2 k1
              | Returned k2 =>
                  stream ep total_bytes temp_file output_file log evs None
                    {| dl := d2; dk := k2;
                       downloaded := downloaded_bytes; since_update := 0 |}
              end
          end
      end
  end.

Record Batch := {
  batch_ended : ending (Z * Z);
  batch_downloader : VideoDownloader;
  batch_disk : Disk;
  batch_requests : list Request
}.

(** The loop of [download_all], with the two counters and the requests
    issued so far. *)
Fixpoint download_all_from (d : VideoDownloader) (k : Disk)
    (server : Request → Reply) (episodes : list EpisodeInfo)
    (successful failed : Z) (log : list Request) : Batch :=
  let finish e d k log :=
    {| batch_ended := e; batch_downloader := d;
       batch_disk := k; batch_requests := log |} in
  match episodes with
  | [] => finish (Finished (Returned (successful, failed))) d k log
  | episode :: rest =>
      if _cancelled d then finish (Finished (Returned (successful, failed))) d k log
      else if match state d with
              | Some s => bool_decide (episode_number episode ∈ Store.completed_episodes s)
              | None => false
              end
      then download_all_from d k server rest (successful + 1)%Z failed log
      else
        let r := download_episode d k server episode in
        let log' := log ++ requests r in
        match ended r with
        | Finished (Returned true) =>
            download_all_from (downloader r) (disk r) server rest
              (successful + 1)%Z failed log'
        | Finished (Returned false) =>
            download_all_from (downloader r) (disk r) server rest successful
              (if _cancelled (downloader r) then failed else (failed + 1)%Z) log'
        | Finished (Raised e) =>
            finish (Finished (Raised e)) (downloader r) (disk r) log'
        | Waiting => finish Waiting (downloader r) (disk r) log'
        end
  end.

(** [self.download_all(episodes)] *)
Definition download_all (d : VideoDownloader) (k : Disk)
    (server : Request → Reply) (episodes : list EpisodeInfo) : Batch :=
  download_all_from d k server episodes 0 0 [].

End Engine.

(** ** Opening and clearing a session ([init_state], [clear_state]) *)

Module Session.

(** [parser.SeriesInfo] *)
Record SeriesInfo := {
  series_id : Z;
  title : string;
  total_episodes : Z;
  poster_url : option string;
  episode_urls : option (gmap Z string)
}.

(** [sorted(l)] for a list of integers. *)
Definition sorted (l : list Z) : list Z := merge_sort Z.le l.

(** [self.init_state(series_info, selected_episodes)]: the engine with its
    new state, and the disk after [_save_state] or the exception it
    raised. *)
Definition init_state (d : Engine.VideoDownloader) (k : Engine.Disk)
    (series_info : SeriesInfo) (selected_episodes : list Z)
  : Engine.VideoDownloader * outcome Engine.Disk :=
  let d' :=
    Engine.set_state d
      (Some {| Store.series_id := series_id series_info;
               Store.series_title := title series_info;
               Store.total_episodes := total_episodes series_info;
               Store.output_dir := Engine.output_dir d;
               Store.selected_episodes := sorted selected_episodes;
               Store.completed_episodes := [];
               Store.current_episode := None;
               Store.current_progress := None |}) in
  (d', Engine._save_state d' k).

(** [self.clear_state()].  [unlink_ok] tells whether the operating system
    lets the snapshot be removed; when it does not, [unlink] raises before
    the state is dropped. *)
Definition clear_state (unlink_ok : bool) (d : Engine.VideoDownloader)
    (k : Engine.Disk) : outcome (Engine.VideoDownloader * Engine.Disk) :=
  match Engine.documents k !! Engine.state_file d with
  | Some _ =>
      if unlink_ok then
        Returned (Engine.set_state d None,
                  Engine.set_documents k
                    (delete (Engine.state_file d) (Engine.documents k)))
      else Raised OSError
  | None => Returned (Engine.set_state d None, k)
  end.

End Session.

(** ** The series address ([parser.py]) *)

Module Parser.

Definition BASE_URL : string := "https://rongyok.com/watch/".

(** The address [get_series_info] fetches:
    [f"{BASE_URL}?series_id={series_id}"]. *)
Definition series_url (series_id : Z) : string :=
  BASE_URL ++ "?series_id=" ++ Py.str_int series_id.

(** The address [get_episode_video_url] falls back to:
    [f"{BASE_URL}?series_id={series_id}&ep={episode}"]. *)
Definition episode_url (series_id episode : Z) : string :=
  BASE_URL ++ "?series_id=" ++ Py.str_int series_id
  ++ "&ep=" ++ Py.str_int episode.

(** What follows [p] when [s] starts with [p]. *)
Fixpoint strip_prefix (p s : string) : option string :=
  match p, s with
  | EmptyString, _ => Some s
  | String a p', String b s' =>
      if Ascii.eqb a b then strip_prefix p' s' else None
  | String _ _, EmptyString => None
  end.

(** [re.search]: the match at the leftmost position that has one. *)
Fixpoint search {A} (at_start : string → option A) (s : string) : option A :=
  match at_start s with
  | Some v => Some v
  | None =>
      match s with
      | String _ r => search at_start r
      | EmptyString => None
      end
  end.

(** [series_id=(\d+)] at the start of [s], the group read by [int]. *)
Definition match_query (s : string) : option Z :=
  match strip_prefix "series_id=" s with
  | Some r =>
      let '(d, _) := Py.span_digits r in
      match d with
      | String _ _ => Some (Py.digits_val 0 d)
      | EmptyString => None
      end
  | None => None
  end.

(** [(?:/|$)] at the start of [t]: a slash, the end of the text, or the
    line break that ends the text. *)
Definition slash_or_end (t : string) : bool :=
  match t with
  | EmptyString => true
  | String c r =>
      Ascii.eqb c "/" || (Ascii.eqb c "010" && String.eqb r EmptyString)
  end.

(** [/series/(\d+)(?:/|$)] at the start of [s], the group read by [int].
    The group is greedy, and giving digits back never helps: what follows
    a shorter run is a digit. *)
Definition match_path (s : string) : option Z :=
  match strip_prefix "/series/" s with
  | Some r =>
      let '(d, t) := Py.span_digits r in
      match d with
      | String _ _ =>
          if slash_or_end t then Some (Py.digits_val 0 d) else None
      | EmptyString => None
      end
  | None => None
  end.

(** [RongyokParser.parse_series_url(url)] *)
Definition parse_series_url (url : string) : option Z :=
  match search match_query url with
  | Some series_id => Some series_id
  | None => search match_path url
  end.

End Parser.

(** ** The command line driver ([cli.py]) *)

Module Driver.

(** The character class of the first substitution: the angle brackets,
    the colon, the double quote, both slashes, the bar, the question mark
    and the star. *)
Definition forbidden (c : ascii) : bool :=
  existsb (Ascii.eqb c)
    ["<"; ">"; ":"; "034"; "/"; "\"; "|"; "?"; "*"]%char.

(** The first [re.sub]: every character of the class is dropped. *)
Fixpoint remove_forbidden (s : string) : string :=
  match s with
  | EmptyString => EmptyString
  | String c r =>
      if forbidden c then remove_forbidden r
      else String c (remove_forbidden r)
  end.

(** [re.sub(r'\s+', ' ', name)]: every maximal run of white space becomes
    one blank.  [run] tells whether the previous character was white
    space. *)
Fixpoint squeeze (run : bool) (s : string) : string :=
  match s with
  | EmptyString => EmptyString
  | String c r =>
      if Py.isspace c then
        if run then squeeze true r else String " " (squeeze true r)
      else String c (squeeze false r)
  end.

(** [sanitize_filename(name)] *)
Definition sanitize_filename (name : string) : string :=
  let name := remove_forbidden name in
  let name := Py.strip (squeeze false name) in
  if (100 <? String.length name)%nat then String.substring 0 100 name
  else name.

Record Run := {
  run_ended : Engine.ending (Z * Z * bool);
  run_downloader : Engine.VideoDownloader;
  run_disk : Engine.Disk;
  run_requests : list Engine.Request
}.

(** The loop of [download_episodes] from its turn [i] on, with the two
    counters and the requests the downloader has issued so far.
    [find i ep_num] is what [get_episode_video_url] answers in turn [i]:
    the title and address of the episode, nothing, or an exception.  The
    result tells the two counters of the summary and whether
    [merge_downloaded] is called. *)
Fixpoint download_episodes_from
    (find : nat → Z → outcome (option (string * string)))
    (d : Engine.VideoDownloader) (k : Engine.Disk)
    (server : Engine.Request → Engine.Reply) (episodes : list Z)
    (skip_merge : bool) (i : nat) (successful failed : Z)
    (log : list Engine.Request) : Run :=
  let finish e d k log :=
    {| run_ended := e; run_downloader := d;
       run_disk := k; run_requests := log |} in
  match episodes with
  | [] =>
      finish
        (Engine.Finished
           (Returned (successful, failed,
                      negb skip_merge && (0 <? successful)%Z))) d k log
  | ep_num :: rest =>
      if match Engine.state d with
         | Some s => bool_decide (ep_num ∈ Store.completed_episodes s)
         | None => false
         end
      then download_episodes_from find d k server rest skip_merge (S i)
             (successful + 1)%Z failed log
      else
        match find i ep_num with
        | Raised e => finish (Engine.Finished (Raised e)) d k log
        | Returned None =>
            download_episodes_from find d k server rest skip_merge (S i)
              successful (failed + 1)%Z log
        | Returned (Some (title, video_url)) =>
            let episode_info :=
              {| Engine.episode_number := ep_num; Engine.title := title;
                 Engine.video_url := video_url |} in
            let r := Engine.download_episode d k server episode_info in
            let log' := log ++ Engine.requests r in
            match Engine.ended r with
            | Engine.Finished (Returned true) =>
                download_episodes_from find (Engine.downloader r)
                  (Engine.disk r) server rest skip_merge (S i)
                  (successful + 1)%Z failed log'
            | Engine.Finished (Returned false) =>
                download_episodes_from find (Engine.downloader r)
                  (Engine.disk r) server rest skip_merge (S i)
                  successful (failed + 1)%Z log'
            | Engine.Finished (Raised e) =>
                finish (Engine.Finished (Raised e)) (Engine.downloader r)
                  (Engine.disk r) log'
            | Engine.Waiting =>
                finish Engine.Waiting (Engine.downloader r) (Engine.disk r)
                  log'
            end
        end
  end.

(** [download_episodes(parser, downloader, series_id, episodes, skip_merge,
    merger, series_title)] *)
Definition download_episodes
    (find : nat → Z → outcome (option (string * string)))
    (d : Engine.VideoDownloader) (k : Engine.Disk)
    (server : Engine.Request → Engine.Reply) (episodes : list Z)
    (skip_merge : bool) : Run :=
  download_episodes_from find d k server episodes skip_merge 0 0 0 [].

End Driver.

(** ** Vocabulary of the statements *)

(** An episode number a series of [max_episode] episodes has. *)
Definition within (max_episode : Z) (x : Z) : Prop := (1 ≤ x ≤ max_episode)%Z.

(** The number a run of decimal digits denotes, leading zeros allowed. *)
Definition decode (s : string) : option N :=
  N.of_uint <$> NilEmpty.uint_of_string s.

(** The numbers [0 .. n-1]. *)
Definition below (n : nat) : list Z := Z.of_nat <$> seq 0 n.

(** Whether, among the episodes [0 .. n-1], the names of the final
    artifacts compare as the episode numbers do. *)
Definition ordered_below (n : nat) : bool :=
  forallb (λ a,
    forallb (λ b,
      Bool.eqb
        (String.ltb ("ep_" ++ Py.format_0d 2 a ++ ".mp4")
                    ("ep_" ++ Py.format_0d 2 b ++ ".mp4"))
        (a <? b)%Z)
      (below n))
    (below n).

(** The fields of [DownloadState] that have no default value. *)
Definition required_fields : list string :=
  [ "series_id"; "series_title"; "total_episodes"; "output_dir";
    "selected_episodes"; "completed_episodes" ].

(** Size of the partial artifact found at [p]: 0 when there is none. *)
Definition partial_size (k : Engine.Disk) (p : Path) : Z :=
  match Engine.artifacts k !! p with
  | Some data => Z.of_nat (length data)
  | None => 0%Z
  end.

(** The request for an episode when [n] bytes are already on disk. *)
Definition request_for (episode_info : Engine.EpisodeInfo) (n : Z)
  : Engine.Request :=
  {| Engine.url := Engine.video_url episode_info;
     Engine.headers :=
       if (0 <? n)%Z
       then {[ "Range" := ("bytes=" ++ Py.str_int n ++ "-")%string ]}
       else ∅ |}.

(** Neither paused nor cancelled. *)
Definition quiet (d : Engine.VideoDownloader) : Prop :=
  Engine._paused d = false ∧ Engine._cancelled d = false.

(** The operating system refuses nothing. *)
Definition healthy (k : Engine.Disk) : Prop :=
  Engine.faults k = Engine.no_faults.

(** The session state names [ep] as the episode being transferred. *)
Definition transferring (ep : Z) (d : Engine.VideoDownloader) : Prop :=
  ∃ s, Engine.state d = Some s ∧ Store.current_episode s = Some ep.

(** The session state has neither current episode nor current progress. *)
Definition idle (d : Engine.VideoDownloader) : Prop :=
  ∃ s, Engine.state d = Some s
       ∧ Store.current_episode s = None ∧ Store.current_progress s = None.

(** The loop state after an action of the driver. *)
Definition steer (a : Engine.action) (t : Engine.Transfer) : Engine.Transfer :=
  {| Engine.dl := Engine.control a (Engine.dl t);
     Engine.dk := Engine.dk t;
     Engine.downloaded := Engine.downloaded t;
     Engine.since_update := Engine.since_update t |}.

(** The loop state of a quiet engine, started from [d0], on a healthy disk
    whose partial artifact [tmp] holds the bytes [x] and whose other
    artifacts are those of [base]. *)
Definition carries (tmp : Path) (base : gmap Path (list Byte.byte))
    (d0 : Engine.VideoDownloader) (x : list Byte.byte) (t : Engine.Transfer)
  : Prop :=
  quiet (Engine.dl t)
  ∧ Engine.output_dir (Engine.dl t) = Engine.output_dir d0
  ∧ healthy (Engine.dk t)
  ∧ Engine.artifacts (Engine.dk t) = <[tmp := x]> base.

(** What the partial artifact holds once it is opened: its former content
    in append mode, nothing in truncating mode. *)
Definition opened_with (k : Engine.Disk) (tmp : Path) (append : bool)
  : list Byte.byte :=
  if append then default [] (Engine.artifacts k !! tmp) else [].

(** Two calls that end alike and leave the same engine and the same disk;
    only the requests they sent may differ. *)
Definition agree (r r' : Engine.Result) : Prop :=
  Engine.ended r = Engine.ended r'
  ∧ Engine.downloader r = Engine.downloader r'
  ∧ Engine.disk r = Engine.disk r'.

(** Two session states of the same series with the same selection. *)
Definition same_series (s s' : Store.DownloadState) : Prop :=
  Store.series_id s' = Store.series_id s
  ∧ Store.series_title s' = Store.series_title s
  ∧ Store.total_episodes s' = Store.total_episodes s
  ∧ Store.output_dir s' = Store.output_dir s
  ∧ Store.selected_episodes s' = Store.selected_episodes s.

(** The checkpoint of the session state [s] is one of episode [ep], of
    total size [total], and counts at most [n] bytes. *)
Definition checkpoint_within (ep total n : Z) (s : Store.DownloadState) : Prop :=
  Store.current_episode s = Some ep
  ∧ ∃ p, Store.current_progress s = Some p
         ∧ Store.episode p = ep
         ∧ Store.total_bytes p = total
         ∧ Store.completed p = false
         ∧ (Store.downloaded_bytes p ≤ n)%Z.

(** The engine after the driver's actions [acts], in order. *)
Definition drive (acts : list Engine.action) (d : Engine.VideoDownloader)
  : Engine.VideoDownloader :=
  foldl (λ d a, Engine.control a d) d acts.

(** No action of the driver occurs among the events. *)
Definition undisturbed (evs : list Engine.event) : Prop :=
  Forall (λ e, ∀ a, e ≠ Engine.Control a) evs.

(** A server during whose responses the driver never acts. *)
Definition unattended (server : Engine.Request → Engine.Reply) : Prop :=
  ∀ req status hdrs evs,
    server req = Engine.Response status hdrs evs → undisturbed evs.

(** The session state [s] once episode [ep] is completed: the episode is
    appended to the completed ones unless it is there, and nothing is
    current. *)
Definition finished (ep : Z) (s : Store.DownloadState) : Store.DownloadState :=
  Engine.with_current_progress
    (Engine.with_current_episode
       (Engine.with_completed_episodes s
          (if bool_decide (ep ∈ Store.completed_episodes s)
           then Store.completed_episodes s
           else Store.completed_episodes s ++ [ep]))
       None)
    None.

(** The set of episodes the comma-separated groups of [s] select. *)
Definition selection (max_episode : Z) (s : string) : gset Z :=
  foldl (Cli.parse_part max_episode) ∅ (Py.split "," s).

(** Every character of [s] satisfies [f]. *)
Fixpoint all_chars (f : ascii → bool) (s : string) : bool :=
  match s with
  | EmptyString => true
  | String c r => f c && all_chars f r
  end.

(** Every white space character of [s] is a blank that follows no white
    space, where [run] tells whether white space comes just before [s]. *)
Fixpoint single_blanks (run : bool) (s : string) : bool :=
  match s with
  | EmptyString => true
  | String c r =>
      if Py.isspace c then Ascii.eqb c " " && negb run && single_blanks true r
      else single_blanks false r
  end.

(** The last character of [s] is no white space. *)
Fixpoint ends_clean (s : string) : bool :=
  match s with
  | EmptyString => true
  | String c EmptyString => negb (Py.isspace c)
  | String _ r => ends_clean r
  end.

(** ** Sample values for the examples *)

Module Sample.

Definition session : Store.DownloadState :=
  {| Store.series_id := 941;
     Store.series_title := "Test";
     Store.total_episodes := 10;
     Store.output_dir := "out";
     Store.selected_episodes := [1; 2; 3]%Z;
     Store.completed_episodes := [];
     Store.current_episode := None;
     Store.current_progress := None |}.

Definition engine : Engine.VideoDownloader :=
  {| Engine.output_dir := "out"; Engine.state := Some session;
     Engine._paused := false; Engine._cancelled := false |}.

Definition disk : Engine.Disk :=
  {| Engine.artifacts := ∅; Engine.documents := ∅;
     Engine.faults := Engine.no_faults |}.

Definition episode1 : Engine.EpisodeInfo :=
  {| Engine.episode_number := 1; Engine.title := "Episode 1";
     Engine.video_url := "http://example.com/video.mp4" |}.

Definition episode2 : Engine.EpisodeInfo :=
  {| Engine.episode_number := 2; Engine.title := "Episode 2";
     Engine.video_url := "http://example.com/video2.mp4" |}.

Definition xs (n : nat) : list Byte.byte := repeat Byte.x78 n.
Definition ys (n : nat) : list Byte.byte := repeat Byte.x79 n.

(** A server that ignores ranges: status 200 and the whole content. *)
Definition full_content (length_header : string) (evs : list Engine.event)
  : Engine.Request → Engine.Reply :=
  λ _, Engine.Response 200
         {| Engine.content_range := None;
            Engine.content_length := Some length_header |} evs.

(** A server that honours ranges: status 206 and the rest of the content. *)
Definition partial_content (range_header : string) (evs : list Engine.event)
  : Engine.Request → Engine.Reply :=
  λ _, Engine.Response 206
         {| Engine.content_range := Some range_header;
            Engine.content_length := None |} evs.

Definition not_found : Engine.Request → Engine.Reply :=
  λ _, Engine.Response 404
         {| Engine.content_range := None; Engine.content_length := None |} [].

(** A directory in which files cannot be renamed. *)
Definition no_rename_disk : Engine.Disk :=
  {| Engine.artifacts := ∅; Engine.documents := ∅;
     Engine.faults :=
       {| Engine.part_denied := false; Engine.space := None;
          Engine.rename_denied := true; Engine.snapshot_denied := false |} |}.

(** [ep_01.mp4] and [ep_01.mp4.part] in the sample directory. *)
Definition final1 : Path := PathOps.join "out" "ep_01.mp4".
Definition part1 : Path := PathOps.join "out" "ep_01.mp4.part".

Definition series : Session.SeriesInfo :=
  {| Session.series_id := 941; Session.title := "Test";
     Session.total_episodes := 10; Session.poster_url := None;
     Session.episode_urls := None |}.

(** An engine that has no session yet. *)
Definition bare_engine : Engine.VideoDownloader :=
  {| Engine.output_dir := "out"; Engine.state := None;
     Engine._paused := false; Engine._cancelled := false |}.

(** A session whose three episodes are all completed. *)
Definition finished_session : Store.DownloadState :=
  {| Store.series_id := 941;
     Store.series_title := "Test";
     Store.total_episodes := 10;
     Store.output_dir := "out";
     Store.selected_episodes := [1; 2; 3]%Z;
     Store.completed_episodes := [1; 2; 3]%Z;
     Store.current_episode := None;
     Store.current_progress := None |}.

Definition finished_engine : Engine.VideoDownloader :=
  {| Engine.output_dir := "out"; Engine.state := Some finished_session;
     Engine._paused := false; Engine._cancelled := false |}.

(** [ep_02.mp4] in the sample directory. *)
Definition final2 : Path := PathOps.join "out" "ep_02.mp4".

(** A directory that holds a part of episode 1 and the whole episode 2. *)
Definition shelf_disk : Engine.Disk :=
  {| Engine.artifacts := {[ part1 := xs 500; final2 := ys 300 ]};
     Engine.documents := ∅;
     Engine.faults := Engine.no_faults |}.

(** A directory that holds the first 500 bytes of episode 1. *)
Definition resumable_disk : Engine.Disk :=
  {| Engine.artifacts := {[ part1 := xs 500 ]}; Engine.documents := ∅;
     Engine.faults := Engine.no_faults |}.

End Sample.

(** * Properties *)

(** ** Episode selection *)

Section Selection.

Implicit Types (s : gset Z) (l : list Z).

Lemma strictly_ascending l :
  StronglySorted Z.le l → NoDup l → StronglySorted Z.lt l.
Proof.
  induction 1 as [|x l Hs IH Hx]; intros Hnd; [constructor|].
  apply NoDup_cons in Hnd as [Hnotin Hnd].
  constructor; [by apply IH|].
  apply Forall_forall. intros y Hy.
  rewrite Forall_forall in Hx. specialize (Hx y Hy).
  assert (x ≠ y) by (intros ->; by apply Hnotin). lia.
Qed.

Lemma seqZ_ascending (a n : Z) : StronglySorted Z.lt (seqZ a n).
Proof.
  destruct (decide (n ≤ 0)%Z) as [Hn|Hn].
  { rewrite seqZ_nil by lia. constructor. }
  rewrite <- (Z2Nat.id n) by lia. generalize (Z.to_nat n). clear Hn.
  intros k. revert a.
  induction k as [|k IH]; intros a.
  - rewrite seqZ_nil by lia. constructor.
  - rewrite seqZ_cons by lia.
    replace (Z.pred (Z.of_nat (S k))) with (Z.of_nat k) by lia.
    constructor; [apply IH|].
    apply Forall_forall. intros x Hx. apply elem_of_seqZ in Hx. lia.
Qed.

Lemma sorted_ascending s : StronglySorted Z.lt (Cli.sorted s).
Proof.
  unfold Cli.sorted. apply strictly_ascending.
  - apply StronglySorted_merge_sort; apply _.
  - rewrite merge_sort_Permutation. apply NoDup_elements.
Qed.

Lemma elem_of_sorted s x : x ∈ Cli.sorted s ↔ x ∈ s.
Proof. unfold Cli.sorted. by rewrite merge_sort_Permutation, elem_of_elements. Qed.

Lemma parse_part_within max_episode s part :
  (1 ≤ max_episode)%Z →
  set_Forall (within max_episode) s →
  set_Forall (within max_episode) (Cli.parse_part max_episode s part).
Proof.
  intros Hmax Hs. unfold Cli.parse_part.
  destruct (Py.contains _ _).
  - destruct (Cli.match_range _) as [[a b]|]; [|done].
    intros x [Hx|Hx]%elem_of_union; [by apply Hs|].
    apply elem_of_list_to_set in Hx. unfold Py.range in Hx.
    apply elem_of_seqZ in Hx. unfold within. lia.
  - destruct (Py.int_of_str _) as [ep|]; [|done].
    destruct (_ && _)%Z eqn:Hin; [|done].
    intros x [Hx|Hx]%elem_of_union; [by apply Hs|].
    apply elem_of_singleton in Hx as ->. unfold within.
    apply andb_true_iff in Hin as [?%Z.leb_le ?%Z.leb_le]. lia.
Qed.

Lemma foldl_parse_part_within max_episode parts s :
  (1 ≤ max_episode)%Z →
  set_Forall (within max_episode) s →
  set_Forall (within max_episode) (foldl (Cli.parse_part max_episode) s parts).
Proof.
  intros Hmax. revert s.
  induction parts as [|p parts IH]; intros s Hs; simpl; [done|].
  apply IH. by apply parse_part_within.
Qed.

End Selection.

(** ** Artifact names *)

Section Naming.

Local Open Scope string_scope.

Lemma string_app_nil (b : string) : "" ++ b = b.
Proof. reflexivity. Qed.

Lemma string_app_cons (x : ascii) (a b : string) :
  String x a ++ b = String x (a ++ b).
Proof. reflexivity. Qed.

Lemma string_app_assoc (a b c : string) : (a ++ b) ++ c = a ++ (b ++ c).
Proof.
  induction a as [|x a IH]; rewrite ?string_app_nil, ?string_app_cons; [done|].
  by rewrite IH.
Qed.

Lemma string_length_app (a b : string) :
  String.length (a ++ b) = (String.length a + String.length b)%nat.
Proof.
  induction a as [|x a IH]; rewrite ?string_app_nil, ?string_app_cons; simpl; [done|].
  by rewrite IH.
Qed.

Lemma string_app_inv_tail (a b t : string) : a ++ t = b ++ t → a = b.
Proof.
  revert b. induction a as [|x a IH]; intros [|y b] H;
    rewrite ?string_app_nil, ?string_app_cons in H.
  - done.
  - apply (f_equal String.length) in H. simpl in H.
    rewrite string_length_app in H. lia.
  - apply (f_equal String.length) in H. simpl in H.
    rewrite string_length_app in H. lia.
  - injection H as -> H. f_equal. by apply IH.
Qed.

Lemma decode_zero (s : string) : decode (String "0" s) = decode s.
Proof. unfold decode. simpl. by destruct (NilEmpty.uint_of_string s). Qed.

Lemma decode_minus (s : string) : decode (String "-" s) = None.
Proof. unfold decode. simpl. by destruct (NilEmpty.uint_of_string s). Qed.

Lemma decode_digits (n : N) : decode (Py.digits n) = Some n.
Proof.
  unfold decode, Py.digits, NilZero.string_of_uint.
  rewrite <- (DecimalN.Unsigned.of_to n) at 2.
  destruct (N.to_uint n) eqn:E; try (rewrite NilEmpty.usu; reflexivity).
  reflexivity.
Qed.

Lemma decode_lpad0 (w : nat) (n : N) : decode (Py.lpad0 w (Py.digits n)) = Some n.
Proof.
  unfold Py.lpad0.
  induction (w - String.length (Py.digits n))%nat as [|k IH]; simpl;
    rewrite ?string_app_nil, ?string_app_cons.
  - apply decode_digits.
  - by rewrite decode_zero.
Qed.

Lemma lpad0_not_minus (w : nat) (n : N) (r : string) :
  Py.lpad0 w (Py.digits n) ≠ String "-" r.
Proof.
  intros H. pose proof (decode_lpad0 w n) as D.
  rewrite H, decode_minus in D. discriminate.
Qed.

Lemma format_0d_inj (w : nat) (a b : Z) :
  Py.format_0d w a = Py.format_0d w b → a = b.
Proof.
  unfold Py.format_0d.
  destruct (Z.ltb_spec a 0) as [Ha|Ha], (Z.ltb_spec b 0) as [Hb|Hb]; intros H.
  - injection H as H. apply (f_equal decode) in H.
    rewrite !decode_lpad0 in H. injection H as H. lia.
  - symmetry in H. by apply lpad0_not_minus in H.
  - by apply lpad0_not_minus in H.
  - apply (f_equal decode) in H.
    rewrite !decode_lpad0 in H. injection H as H. lia.
Qed.

Lemma get_episode_filename_inj (d : Engine.VideoDownloader) (a b : Z) :
  Engine.get_episode_filename d a = Engine.get_episode_filename d b → a = b.
Proof.
  unfold Engine.get_episode_filename, PathOps.join. intros H.
  injection H as H. rewrite !string_app_nil in H.
  apply string_app_inv_tail in H. by apply format_0d_inj in H.
Qed.

Lemma elem_of_below (n : nat) (a : Z) : (0 ≤ a < Z.of_nat n)%Z → In a (below n).
Proof.
  intros Ha. unfold below. apply list_elem_of_In, list_elem_of_fmap.
  exists (Z.to_nat a). split; [lia|]. apply elem_of_seq. lia.
Qed.

Lemma ordered_below_100 : ordered_below 100 = true.
Proof. vm_compute. reflexivity. Qed.

Lemma names_ordered (d : Engine.VideoDownloader) (a b : Z) :
  (0 ≤ a ≤ 99)%Z → (0 ≤ b ≤ 99)%Z →
  String.ltb (name (Engine.get_episode_filename d a))
             (name (Engine.get_episode_filename d b)) = (a <? b)%Z.
Proof.
  intros Ha Hb. pose proof ordered_below_100 as H.
  unfold ordered_below in H. rewrite forallb_forall in H.
  specialize (H a (elem_of_below 100 a ltac:(lia))).
  rewrite forallb_forall in H.
  specialize (H b (elem_of_below 100 b ltac:(lia))).
  by apply Bool.eqb_prop in H.
Qed.

Lemma contains_app (c : ascii) (a b : string) :
  Py.contains c (a ++ b) = Py.contains c a || Py.contains c b.
Proof.
  induction a as [|x a IH]; rewrite ?string_app_nil, ?string_app_cons; simpl; [done|].
  rewrite IH. by rewrite orb_assoc.
Qed.

Lemma uint_no_dot (u : Decimal.uint) :
  Py.contains "." (NilEmpty.string_of_uint u) = false.
Proof. induction u; simpl; auto. Qed.

Lemma digits_no_dot (n : N) : Py.contains "." (Py.digits n) = false.
Proof.
  unfold Py.digits, NilZero.string_of_uint.
  destruct (N.to_uint n) eqn:E; try (rewrite <- E; apply uint_no_dot); reflexivity.
Qed.

Lemma lpad0_no_dot (w : nat) (n : N) :
  Py.contains "." (Py.lpad0 w (Py.digits n)) = false.
Proof.
  unfold Py.lpad0. rewrite contains_app, digits_no_dot, orb_false_r.
  induction (w - String.length (Py.digits n))%nat; simpl; auto.
Qed.

Lemma format_0d_no_dot (w : nat) (z : Z) :
  Py.contains "." (Py.format_0d w z) = false.
Proof.
  unfold Py.format_0d. destruct (z <? 0)%Z; simpl; by rewrite lpad0_no_dot.
Qed.

Lemma rsplit_dot_none (s : string) :
  Py.contains "." s = false → PathOps.rsplit_dot s = None.
Proof.
  induction s as [|c s IH]; simpl; [done|].
  intros [Hc Hs]%orb_false_iff. rewrite (IH Hs). by rewrite Hc.
Qed.

Lemma rsplit_dot_last (s t : string) :
  Py.contains "." s = false → Py.contains "." t = false →
  PathOps.rsplit_dot (s ++ String "." t) = Some (s, String "." t).
Proof.
  intros Hs Ht.
  induction s as [|c s IH]; rewrite ?string_app_nil, ?string_app_cons; simpl.
  - by rewrite (rsplit_dot_none t Ht).
  - apply orb_false_iff in Hs as [_ Hs]. by rewrite (IH Hs).
Qed.

Lemma temp_file_name (d : Engine.VideoDownloader) (ep : Z) :
  PathOps.with_suffix (Engine.get_episode_filename d ep) ".mp4.part"
  = PathOps.join (Engine.output_dir d)
      (name (Engine.get_episode_filename d ep) ++ ".part").
Proof.
  unfold PathOps.with_suffix, Engine.get_episode_filename, PathOps.join. simpl.
  f_equal. unfold PathOps.split_suffix.
  rewrite <- (string_app_assoc "ep_" (Py.format_0d 2 ep) ".mp4").
  rewrite rsplit_dot_last.
  - rewrite string_length_app. simpl.
    by rewrite !string_app_assoc.
  - rewrite contains_app, format_0d_no_dot. reflexivity.
  - reflexivity.
Qed.

Lemma temp_file_neq (d : Engine.VideoDownloader) (ep : Z) :
  PathOps.with_suffix (Engine.get_episode_filename d ep) ".mp4.part"
  ≠ Engine.get_episode_filename d ep.
Proof.
  rewrite temp_file_name. unfold PathOps.join, Engine.get_episode_filename.
  intros H. injection H as H. apply (f_equal String.length) in H.
  rewrite string_length_app in H. simpl in H. lia.
Qed.

(** C7, as the code has it. [get_episode_filename] is injective in the
    episode number; the names of the final artifacts are in lexicographic
    order exactly when the episode numbers are in numeric order for the
    episodes 0 to 99 only, which the two-digit padding covers; and the
    partial artifact is named as the final one followed by the suffix
    [.part]. *)
Theorem artifact_naming (d : Engine.VideoDownloader) :
  (∀ a b : Z,
     Engine.get_episode_filename d a = Engine.get_episode_filename d b → a = b)
  ∧ (∀ a b : Z,
       (0 ≤ a ≤ 99)%Z → (0 ≤ b ≤ 99)%Z →
       ((a < b)%Z ↔
        String.ltb (name (Engine.get_episode_filename d a))
                   (name (Engine.get_episode_filename d b)) = true))
  ∧ (∀ ep : Z,
       PathOps.with_suffix (Engine.get_episode_filename d ep) ".mp4.part"
       = PathOps.join (Engine.output_dir d)
           (name (Engine.get_episode_filename d ep) ++ ".part")).
Proof.
  split; [apply get_episode_filename_inj|].
  split; [|apply temp_file_name].
  intros a b Ha Hb. rewrite names_ordered by done. apply iff_sym, Z.ltb_lt.
Qed.

End Naming.

(** Witness of the ordering of names, on the episodes 7 and 70. *)
Lemma artifact_naming_witness :
  (7 < 70)%Z ↔
  String.ltb "ep_07.mp4" "ep_70.mp4" = true.
Proof.
  apply (proj1 (proj2 (artifact_naming
           {| Engine.output_dir := "out"; Engine.state := None;
              Engine._paused := false; Engine._cancelled := false |})) 7%Z 70%Z);
    lia.
Defined.

(** C7 fails past two digits, and nothing bounds the episode numbers: the
    final artifact of episode 100 is named before the one of episode 11,
    although 11 is the smaller number. *)
Lemma names_unordered_from_100 :
  name (Engine.get_episode_filename Sample.engine 100) = "ep_100.mp4"
  ∧ name (Engine.get_episode_filename Sample.engine 11) = "ep_11.mp4"
  ∧ String.ltb (name (Engine.get_episode_filename Sample.engine 100))
               (name (Engine.get_episode_filename Sample.engine 11)) = true
  ∧ (11 < 100)%Z.
Proof. split; [reflexivity|]. split; [reflexivity|]. split; [reflexivity|lia]. Qed.

(** ** The persisted state *)

Section Snapshot.

Implicit Types (s : Store.DownloadState) (docs : gmap Path text_file).

Global Instance JInt_inj : Inj (=) (=) JInt.
Proof. by intros ?? [= ->]. Qed.

Lemma reflect_inj s s' : Store.reflect s' = Store.reflect s → s' = s.
Proof.
  destruct s as [a b c d e f g h], s' as [a' b' c' d' e' f' g' h'].
  unfold Store.reflect; simpl. intros H.
  injection H as Ha Hb Hc Hd He Hf Hg Hh. subst.
  apply (inj (fmap JInt)) in He, Hf. subst.
  assert (g' = g) as -> by (destruct g, g'; simpl in Hg; congruence).
  assert (h' = h) as ->; [|done].
  destruct h as [[]|], h' as [[]|];
    unfold Store.reflect_progress in Hh; simpl in Hh; congruence.
Qed.

Lemma load_body_asdict s docs path :
  docs !! path = Some (Document (Store.asdict s)) →
  Store.load_body docs path = Returned (Store.reflect s).
Proof.
  intros H. unfold Store.load_body. rewrite H.
  destruct s as [a b c d e f g h]. destruct h as [[pe pd pt pc]|].
  - vm_compute. reflexivity.
  - vm_compute. reflexivity.
Qed.

Lemma new_progress_raises v e : Store.new_progress v = Raised e → e = TypeError.
Proof.
  unfold Store.new_progress. destruct v; try by intros [= <-].
  case_bool_decide; [|by intros [= <-]].
  repeat case_match; by intros [= <-].
Qed.

Lemma new_state_missing (data : gmap string json) cp (k : string) :
  k ∈ required_fields → data !! k = None →
  Store.new_state data cp = Raised TypeError.
Proof.
  intros Hk Hnone. unfold Store.new_state. case_bool_decide; [|done].
  unfold required_fields in Hk.
  repeat (apply elem_of_cons in Hk as [->|Hk]; [rewrite Hnone; by repeat case_match|]).
  by apply elem_of_nil in Hk.
Qed.

(** C10. Saving a state and loading the file again gives back the same
    state: every field has the value it had, [current_progress] is a
    [DownloadProgress] record again when it was present, and two states that
    load alike are equal. *)
Theorem save_load_roundtrip s path docs :
  Store.load (Store.save s path docs) path = Returned (Some (Store.reflect s))
  ∧ (∀ s', Store.reflect s' = Store.reflect s → s' = s)
  ∧ (∀ p, Store.current_progress s = Some p →
          Dyn.current_progress (Store.reflect s)
          = Dyn.Progress (Store.reflect_progress p)).
Proof.
  split; [|split].
  - unfold Store.load. rewrite (load_body_asdict s); [done|].
    unfold Store.save. apply lookup_insert_eq.
  - intros s'. apply reflect_inj.
  - intros p Hp. unfold Store.reflect; simpl. by rewrite Hp.
Qed.

Lemma new_state_raises (data : gmap string json) cp e :
  Store.new_state data cp = Raised e → e = TypeError.
Proof.
  unfold Store.new_state. case_bool_decide; [|by intros [= <-]].
  repeat case_match; by intros [= <-].
Qed.

(** A document never reads as a missing file or as a text the parser
    rejects: whatever [load] makes of it, it is a state or one of
    [AttributeError] and [TypeError]. *)
Lemma load_body_document docs path data :
  docs !! path = Some (Document data) →
  (∃ st, Store.load_body docs path = Returned st)
  ∨ Store.load_body docs path = Raised AttributeError
  ∨ Store.load_body docs path = Raised TypeError.
Proof.
  intros H. unfold Store.load_body. rewrite H.
  destruct data as [| | | | |m]; try by (right; left).
  assert (∀ cp, (∃ st, Store.new_state m cp = Returned st)
                ∨ Store.new_state m cp = Raised AttributeError
                ∨ Store.new_state m cp = Raised TypeError) as Hnew.
  { intros cp. destruct (Store.new_state m cp) as [st|e] eqn:E.
    - left. by exists st.
    - right. right. by rewrite (new_state_raises m cp e E). }
  destruct (m !! "current_progress") as [v|]; [|apply Hnew].
  destruct (truthy v); [|apply Hnew].
  destruct (Store.new_progress v) as [q|e] eqn:E; [apply Hnew|].
  right. right. by rewrite (new_progress_raises v e E).
Qed.

(** C3, as the code has it. [load] returns [None] in exactly two cases:
    there is no file, or the file is a text that the JSON parser rejects
    with [JSONDecodeError].  It returns the structured state when the file
    is a snapshot written by [save].  Every other failure is raised: a file
    that cannot be opened ([OSError]), bytes that are no UTF-8 text
    ([UnicodeDecodeError]), a text nested too deep for the parser
    ([RecursionError]), a JSON text that is not an object
    ([AttributeError]) and an object that lacks a required field
    ([TypeError]). *)
Theorem load_outcomes docs path :
  (Store.load docs path = Returned None
   ↔ docs !! path = None ∨ docs !! path = Some Malformed)
  ∧ (∀ s, docs !! path = Some (Document (Store.asdict s)) →
          Store.load docs path = Returned (Some (Store.reflect s)))
  ∧ (docs !! path = Some Unreadable → Store.load docs path = Raised OSError)
  ∧ (docs !! path = Some Undecodable →
     Store.load docs path = Raised UnicodeDecodeError)
  ∧ (docs !! path = Some TooDeep →
     Store.load docs path = Raised RecursionError)
  ∧ (∀ data, docs !! path = Some (Document data) →
             (∀ m, data ≠ JDict m) →
             Store.load docs path = Raised AttributeError)
  ∧ (∀ m k, docs !! path = Some (Document (JDict m)) →
            k ∈ required_fields → m !! k = None →
            Store.load docs path = Raised TypeError).
Proof.
  unfold Store.load.
  split; [|split; [|split; [|split; [|split; [|split]]]]].
  - split.
    + destruct (docs !! path) as [[data| | | |]|] eqn:H.
      * destruct (load_body_document docs path data H) as [[st E]|[E|E]];
          by rewrite E.
      * by right.
      * unfold Store.load_body. by rewrite H.
      * unfold Store.load_body. by rewrite H.
      * unfold Store.load_body. by rewrite H.
      * by left.
    + intros [H|H]; unfold Store.load_body; by rewrite H.
  - intros s H. by rewrite (load_body_asdict s).
  - intros H. unfold Store.load_body. by rewrite H.
  - intros H. unfold Store.load_body. by rewrite H.
  - intros H. unfold Store.load_body. by rewrite H.
  - intros data H Hnd. unfold Store.load_body. rewrite H.
    destruct data; try done. by destruct (Hnd m).
  - intros m k H Hk Hnone. unfold Store.load_body. rewrite H.
    destruct (m !! "current_progress") as [v|].
    + destruct (truthy v).
      * destruct (Store.new_progress v) as [p|e] eqn:E.
        -- by rewrite (new_state_missing m _ k).
        -- by rewrite (new_progress_raises v e E).
      * by rewrite (new_state_missing m _ k).
    + by rewrite (new_state_missing m _ k).
Qed.

End Snapshot.

(** Witness of the outcomes of [load]: bytes that are no UTF-8 text. *)
Lemma load_outcomes_witness :
  Store.load {[ PathOps.join "out" "download_state.json" := Undecodable ]}
    (PathOps.join "out" "download_state.json")
  = Raised UnicodeDecodeError.
Proof.
  apply (proj1 (proj2 (proj2 (proj2
           (load_outcomes
              {[ PathOps.join "out" "download_state.json" := Undecodable ]}
              (PathOps.join "out" "download_state.json")))))).
  reflexivity.
Defined.

(** C3 fails as stated: the JSON text [{}] is well formed, none of its
    fields match the record, and [load] raises [TypeError] instead of
    returning [None]. *)
Lemma load_raises_on_mismatch :
  let path := PathOps.join "out" "download_state.json" in
  let docs : gmap Path text_file := {[ path := Document (JDict ∅) ]} in
  Store.load docs path = Raised TypeError
  ∧ Store.load docs path ≠ Returned None.
Proof. split; [by vm_compute|]. vm_compute. discriminate. Qed.

(** ** The transfer loop *)

Section Streaming.

Import Engine.

Variable episode : Z.
Variable total_bytes : Z.
Variables temp_file output_file : Path.
Variable log : list Request.

Abbreviation stream := (Engine.stream episode total_bytes temp_file output_file log).
Abbreviation body := (Engine.body episode total_bytes temp_file log).
Abbreviation commit := (Engine.commit episode temp_file output_file log).

(** Induction over the loop: an invariant [I] of the loop state that the
    actions of the driver and the turns of the loop keep gives [Q] for the
    result, whichever way the loop is left. *)
Lemma stream_invariant (I : Transfer → Prop) (Q : Result → Prop) :
  (∀ a t, I t → I (steer a t)) →
  (∀ c t t', I t → body c t = Continue t' → I t') →
  (∀ c t r, I t → body c t = Stop r → Q r) →
  (∀ t, I t → Q (commit t)) →
  (∀ t, I t → Q (save_and_return log false (dl t) (dk t))) →
  (∀ t, I t → Q (exit log Waiting (dl t) (dk t))) →
  ∀ evs pending t, I t → Q (stream evs pending t).
Proof.
  intros Hsteer Hcont Hstop Hcommit Hbroken Hwait.
  induction evs as [|ev rest IH]; intros pending t Ht; simpl.
  - destruct pending; [by apply Hwait | by apply Hcommit].
  - destruct pending as [c|], ev as [a|c'|].
    + pose proof (Hsteer a t Ht) as Ht'. unfold steer in Ht'.
      destruct (held _).
      * by apply IH.
      * destruct (body c _) as [t''|r] eqn:E.
        -- apply IH. by eapply Hcont.
        -- by eapply Hstop.
    + by apply Hwait.
    + by apply Hwait.
    + apply IH. by apply (Hsteer a t).
    + destruct (held _).
      * by apply IH.
      * destruct (body c' t) as [t'|r] eqn:E.
        -- apply IH. by eapply Hcont.
        -- by eapply Hstop.
    + by apply Hbroken.
Qed.

Lemma save_and_return_downloader b d k :
  downloader (save_and_return log b d k) = d.
Proof. unfold save_and_return. by destruct (_save_state d k). Qed.

Lemma save_and_return_ended b d k :
  ended (save_and_return log b d k) = Finished (Returned b)
  ∨ (ended (save_and_return log b d k) = Finished (Raised OSError) ∧ ¬ healthy k).
Proof.
  unfold save_and_return, _save_state, healthy.
  destruct (state d); [|by left].
  destruct (snapshot_denied (faults k)) eqn:E; [|by left].
  right. split; [done|]. intros H. by rewrite H in E.
Qed.

(** The session state keeps naming the episode for as long as the loop
    runs; it is cleared by the commit only. *)
Lemma stream_session evs pending t :
  transferring episode (dl t) →
  let r := stream evs pending t in
  (ended r = Finished (Returned true) → idle (downloader r))
  ∧ (ended r = Finished (Returned false) → transferring episode (downloader r)).
Proof.
  apply (stream_invariant (λ t, transferring episode (dl t))
    (λ r, (ended r = Finished (Returned true) → idle (downloader r))
          ∧ (ended r = Finished (Returned false)
             → transferring episode (downloader r)))).
  - intros a t' H. by destruct a.
  - intros c t' t'' (s & Hs & Hep) E. unfold Engine.body in E.
    destruct (_cancelled _); [done|]. destruct c; [by simplify_eq; exists s|].
    destruct (write _ _ _); [|done]. rewrite Hs in E.
    destruct (_ <=? _)%Z; [|by simplify_eq; exists s].
    destruct (_save_state _ _); simplify_eq. by eexists.
  - intros c t' r Ht' E. unfold Engine.body in E.
    destruct (_cancelled _).
    + simplify_eq. rewrite save_and_return_downloader.
      destruct (save_and_return_ended false (dl t') (dk t')) as [->|[-> _]]; by split.
    + destruct c; [done|]. destruct (write _ _ _); [|by simplify_eq].
      destruct (state _); [|done].
      destruct (_ <=? _)%Z; [|done].
      destruct (_save_state _ _); by simplify_eq.
  - intros t' (s & Hs & Hep). unfold Engine.commit.
    destruct (rename _ _ _); [|by split]. rewrite Hs.
    rewrite save_and_return_downloader.
    match goal with
    | |- context [save_and_return log true ?d ?k] =>
        destruct (save_and_return_ended true d k) as [->|[-> _]]
    end; (split; [|done]); [|done].
    intros _. by eexists.
  - intros t' Ht'. rewrite save_and_return_downloader.
    destruct (save_and_return_ended false (dl t') (dk t')) as [->|[-> _]]; by split.
  - by intros t' Ht'.
Qed.

End Streaming.

(** ** One episode *)

Section Episode.

Import Engine.

Implicit Types (d : VideoDownloader) (k : Disk) (server : Request → Reply)
  (episode_info : EpisodeInfo).

(** Where the engine stands once the current episode is recorded. *)
Lemma download_episode_unfold d k server episode_info :
  download_episode d k server episode_info =
  let ep := episode_number episode_info in
  let output_file := get_episode_filename d ep in
  let temp_file := PathOps.with_suffix output_file ".mp4.part" in
  let n := partial_size k temp_file in
  let d1 :=
    match state d with
    | Some s => set_state d (Some (with_current_episode s (Some ep)))
    | None => d
    end in
  let log := [request_for episode_info n] in
  match server (request_for episode_info n) with
  | Refused => save_and_return log false d1 k
  | Response status hdrs evs =>
      match classify status hdrs n with
      | OtherStatus => exit log (Finished (Returned false)) d1 k
      | BadHeader => exit log (Finished (Raised ValueError)) d1 k
      | Sized total_bytes downloaded_bytes =>
          let d2 :=
            match state d1 with
            | Some s =>
                set_state d1
                  (Some (with_current_progress s
                           (Some (progress_at ep total_bytes downloaded_bytes))))
            | None => d1
            end in
          match _save_state d2 k with
          | Raised e => exit log (Finished (Raised e)) d2 k
          | Returned k1 =>
              match open_part temp_file
                      ((0 <? downloaded_bytes)%Z && (status =? 206)%Z) k1 with
              | Raised e => exit log (Finished (Raised e)) d2 k1
              | Returned k2 =>
                  stream ep total_bytes temp_file output_file log evs None
                    {| dl := d2; dk := k2;
                       downloaded := downloaded_bytes; since_update := 0 |}
              end
          end
      end
  end.
Proof. reflexivity. Qed.

(** C2, as the code has it. With a session state, a call that returns
    [True] leaves current episode and current progress cleared; a call that
    returns [False] leaves the current episode set to the episode of the
    call. *)
Theorem current_fields_after_call d k server episode_info :
  is_Some (state d) →
  let r := download_episode d k server episode_info in
  (ended r = Finished (Returned true) → idle (downloader r))
  ∧ (ended r = Finished (Returned false)
     → transferring (episode_number episode_info) (downloader r)).
Proof.
  intros [s Hs]. rewrite download_episode_unfold. cbv zeta. rewrite Hs.
  set (d1 := set_state d _).
  assert (transferring (episode_number episode_info) d1) as H1 by (by eexists).
  destruct (server _) as [|status hdrs evs].
  { rewrite save_and_return_downloader.
    destruct (save_and_return_ended [request_for episode_info
                (partial_size k (PathOps.with_suffix
                   (get_episode_filename d (episode_number episode_info))
                   ".mp4.part"))] false d1 k) as [->|[-> _]]; by split. }
  destruct (classify _ _ _) as [total n| |]; [|by split|by split].
  simpl (state d1).
  destruct (_save_state _ _) as [k1|]; [|by split].
  destruct (open_part _ _ _) as [k2|]; [|by split].
  apply stream_session. simpl. by eexists.
Qed.

End Episode.

(** Witness for the call that succeeds: 1000 bytes in one response. *)
Lemma current_fields_after_call_witness :
  idle (Engine.downloader
          (Engine.download_episode Sample.engine Sample.disk
             (Sample.full_content "1000" [Engine.Chunk (Sample.xs 1000)])
             Sample.episode1)).
Proof.
  apply (current_fields_after_call Sample.engine Sample.disk
           (Sample.full_content "1000" [Engine.Chunk (Sample.xs 1000)])
           Sample.episode1).
  - by eexists.
  - vm_compute. reflexivity.
Defined.

(** C2 fails as stated: a call answered with status 404 returns [False]
    and the current episode is still set. *)
Lemma current_episode_kept_on_failure :
  let r := Engine.download_episode Sample.engine Sample.disk
             Sample.not_found Sample.episode1 in
  Engine.ended r = Engine.Finished (Returned false)
  ∧ Store.current_episode <$> Engine.state (Engine.downloader r)
    = Some (Some 1%Z).
Proof. by vm_compute. Qed.

(** ** What crosses the boundary of the engine *)

Section Escapes.

Import Engine.

Variable k0 : Disk.
Variable episode : Z.
Variable total_bytes : Z.
Variables temp_file output_file : Path.
Variable log : list Request.

(** The partial artifact is open, and the disk is healthy if it was at the
    start of the call. *)
Let sound (t : Transfer) : Prop :=
  is_Some (artifacts (dk t) !! temp_file) ∧ (healthy k0 → healthy (dk t)).

Let storage_only (r : Result) : Prop :=
  ∀ e, ended r = Finished (Raised e) → e = OSError ∧ ¬ healthy k0.

Lemma save_and_return_escapes b d k :
  (healthy k0 → healthy k) → storage_only (save_and_return log b d k).
Proof.
  intros Hk e He.
  destruct (save_and_return_ended log b d k) as [E|[E Hn]];
    rewrite E in He; [done|].
  injection He as <-. split; [done|]. intros H0. by apply Hn, Hk.
Qed.

Lemma write_sound chunk t k1 :
  sound t → write temp_file chunk (dk t) = Returned k1 →
  is_Some (artifacts k1 !! temp_file) ∧ (healthy k0 → healthy k1).
Proof.
  intros [[old Hold] Hh]. unfold write.
  destruct (space (faults (dk t))) as [free|] eqn:Hsp.
  - destruct (_ <? _)%Z; [done|]. intros [= <-]. simpl. split.
    + rewrite lookup_alter_eq, Hold. by eexists.
    + intros H0. specialize (Hh H0). unfold healthy in Hh.
      rewrite Hh in Hsp. discriminate.
  - intros [= <-]. simpl. split.
    + rewrite lookup_alter_eq, Hold. by eexists.
    + intros H0. specialize (Hh H0). unfold healthy in *. simpl. done.
Qed.

Lemma write_escapes chunk t e :
  sound t → write temp_file chunk (dk t) = Raised e → e = OSError ∧ ¬ healthy k0.
Proof.
  intros [_ Hh]. unfold write.
  destruct (space (faults (dk t))) as [free|] eqn:Hsp; [|done].
  destruct (_ <? _)%Z; [|done]. intros [= <-]. split; [done|].
  intros H0. specialize (Hh H0). unfold healthy in Hh.
  rewrite Hh in Hsp. discriminate.
Qed.

Lemma save_state_sound d k k1 :
  _save_state d k = Returned k1 →
  artifacts k1 = artifacts k ∧ faults k1 = faults k.
Proof.
  unfold _save_state. destruct (state d); [|by intros [= <-]].
  destruct (snapshot_denied _); [done|]. by intros [= <-].
Qed.

Lemma save_state_escapes d k e :
  (healthy k0 → healthy k) → _save_state d k = Raised e →
  e = OSError ∧ ¬ healthy k0.
Proof.
  intros Hk. unfold _save_state. destruct (state d); [|done].
  destruct (snapshot_denied _) eqn:E; [|done]. intros [= <-].
  split; [done|]. intros H0. specialize (Hk H0). unfold healthy in Hk.
  by rewrite Hk in E.
Qed.

Lemma stream_escapes evs pending t :
  sound t →
  storage_only (stream episode total_bytes temp_file output_file log evs pending t).
Proof.
  apply (stream_invariant episode total_bytes temp_file output_file log
           sound storage_only).
  - intros a t' H. by destruct a.
  - intros c t' t'' Ht' E. unfold body in E.
    destruct (_cancelled _); [done|]. destruct c as [|b c]; [by simplify_eq|].
    destruct (write _ _ _) as [k1|] eqn:Ew; [|done].
    pose proof (write_sound _ _ _ Ht' Ew) as [Hs1 Hh1].
    destruct (state _); [|by simplify_eq].
    destruct (_ <=? _)%Z; [|by simplify_eq].
    destruct (_save_state _ _) as [k2|] eqn:Es; simplify_eq.
    apply save_state_sound in Es as [Ea Ef]. split; simpl.
    + by rewrite Ea.
    + intros H0. unfold healthy. rewrite Ef. by apply Hh1.
  - intros c t' r Ht' E. unfold body in E.
    destruct (_cancelled _).
    { simplify_eq. apply save_and_return_escapes, Ht'. }
    destruct c as [|b c]; [done|].
    destruct (write _ _ _) as [k1|e1] eqn:Ew.
    + pose proof (write_sound _ _ _ Ht' Ew) as [Hs1 Hh1].
      destruct (state _); [|done].
      destruct (_ <=? _)%Z; [|done].
      destruct (_save_state _ _) as [k2|e2] eqn:Es; simplify_eq.
      intros e [= <-]. by eapply save_state_escapes.
    + simplify_eq. intros e [= <-]. by eapply write_escapes.
  - intros t' [[old Hold] Hh]. unfold commit, rename.
    destruct (rename_denied _) eqn:Er.
    { intros e [= <-]. split; [done|]. intros H0. specialize (Hh H0).
      unfold healthy in Hh. by rewrite Hh in Er. }
    rewrite Hold. destruct (state _).
    + apply save_and_return_escapes. intros H0. by apply Hh.
    + by intros e.
  - intros t' [_ Hh]. by apply save_and_return_escapes.
  - by intros t' _ e.
Qed.

End Escapes.

Section Boundary.

Import Engine.

Lemma open_part_sound p append k k1 :
  open_part p append k = Returned k1 →
  is_Some (artifacts k1 !! p) ∧ faults k1 = faults k.
Proof.
  unfold open_part. destruct (part_denied _); [done|]. intros [= <-]. simpl.
  split; [|done]. rewrite lookup_insert_eq. by eexists.
Qed.

End Boundary.


(** ** Transfers that run undisturbed *)

Section Runs.

Import Engine.

Variable episode : Z.
Variable total_bytes : Z.
Variables temp_file output_file : Path.
Variable log : list Request.
Variable base : gmap Path (list Byte.byte).
Variable d0 : VideoDownloader.

Abbreviation holds := (carries temp_file base d0).

Lemma save_state_healthy d k :
  healthy k →
  ∃ k1, _save_state d k = Returned k1
        ∧ artifacts k1 = artifacts k ∧ faults k1 = faults k
        ∧ ∀ s, state d = Some s →
               documents k1 !! state_file d = Some (Document (Store.asdict s)).
Proof.
  intros Hk. unfold _save_state. destruct (state d) as [s|].
  - unfold healthy in Hk. rewrite Hk. simpl. eexists. split; [done|].
    simpl. split; [done|]. split; [done|].
    intros s' [= <-]. unfold Store.save. apply lookup_insert_eq.
  - exists k. by repeat split.
Qed.

Lemma body_holds c t x :
  holds x t →
  ∃ t', body episode total_bytes temp_file log c t = Continue t'
        ∧ holds (x ++ c) t'.
Proof.
  intros ([Hp Hc] & Hdir & Hk & Ha). unfold body. rewrite Hc.
  destruct c as [|b c].
  { exists t. rewrite app_nil_r. by repeat split. }
  unfold write. pose proof Hk as Hk'. unfold healthy in Hk'. rewrite Hk'. simpl.
  set (k1 := set_artifacts _ _).
  assert (artifacts k1 = <[temp_file := x ++ b :: c]> base) as Ha1.
  { unfold k1. simpl. rewrite Ha. by rewrite alter_insert_eq. }
  assert (healthy k1) as Hk1 by done.
  destruct (state (dl t)) as [s|]; [|eexists; split; [done|]; by repeat split].
  destruct (_ <=? _)%Z; [|eexists; split; [done|]; by repeat split].
  match goal with
  | |- context [_save_state ?d k1] =>
      destruct (save_state_healthy d k1 Hk1) as (k2 & -> & Ea & Ef & _)
  end.
  eexists. split; [done|].
  repeat split; simpl;
    first [done | unfold healthy; by rewrite Ef | by rewrite Ea].
Qed.

Lemma stream_holds chunks rest t x :
  holds x t →
  ∃ t', stream episode total_bytes temp_file output_file log
          (map Chunk chunks ++ rest) None t
        = stream episode total_bytes temp_file output_file log rest None t'
        ∧ holds (x ++ concat chunks) t'.
Proof.
  revert t x. induction chunks as [|c chunks IH]; intros t x Ht; simpl.
  { exists t. by rewrite app_nil_r. }
  destruct Ht as ([Hp Hc] & Hrest). unfold held. rewrite Hp. simpl.
  destruct (body_holds c t x) as (t1 & -> & Ht1); [by split|].
  destruct (IH t1 (x ++ c) Ht1) as (t' & -> & Ht').
  exists t'. split; [done|]. by rewrite app_assoc.
Qed.

Lemma commit_holds t x :
  holds x t →
  let r := commit episode temp_file output_file log t in
  ended r = Finished (Returned true)
  ∧ requests r = log
  ∧ quiet (downloader r)
  ∧ output_dir (downloader r) = output_dir d0
  ∧ healthy (disk r)
  ∧ artifacts (disk r) = <[output_file := x]> (delete temp_file base).
Proof.
  intros ([Hp Hc] & Hdir & Hk & Ha). unfold commit, rename.
  pose proof Hk as Hk'. unfold healthy in Hk'. rewrite Hk'. simpl.
  rewrite Ha, lookup_insert_eq, delete_insert_eq.
  set (k1 := set_artifacts _ _). assert (healthy k1) as Hk1 by done.
  destruct (state (dl t)) as [s|]; [|by repeat split].
  unfold save_and_return.
  match goal with
  | |- context [_save_state ?d k1] =>
      destruct (save_state_healthy d k1 Hk1) as (k2 & -> & Ea & Ef & _)
  end.
  simpl.
  repeat split; first [done | unfold healthy; by rewrite Ef | by rewrite Ea].
Qed.

(** Cancel, seen at the next chunk boundary, ends the loop there. *)
Lemma stream_cancelled c rest t x :
  holds x t →
  let r := stream episode total_bytes temp_file output_file log
             (Control Cancel :: Chunk c :: rest) None t in
  ended r = Finished (Returned false)
  ∧ requests r = log
  ∧ downloader r = cancel (dl t)
  ∧ healthy (disk r)
  ∧ artifacts (disk r) = <[temp_file := x]> base
  ∧ ∀ s, state (downloader r) = Some s →
         documents (disk r) !! state_file (downloader r)
         = Some (Document (Store.asdict s)).
Proof.
  intros ([Hp Hc] & Hdir & Hk & Ha). simpl. unfold held. simpl.
  rewrite andb_false_r. unfold body. simpl. unfold save_and_return.
  destruct (save_state_healthy (cancel (dl t)) (dk t) Hk)
    as (k2 & -> & Ea & Ef & Hdoc).
  simpl.
  repeat split; first [done | unfold healthy; by rewrite Ef | by rewrite Ea].
Qed.

End Runs.

(** ** Resume, restart and cancellation *)

Section Protocol.

Import Engine.

Implicit Types (d : VideoDownloader) (k : Disk) (server : Request → Reply)
  (episode_info : EpisodeInfo).

(** A quiet engine on a healthy disk whose response carries a size reaches
    the streaming loop with the partial artifact opened. *)
Lemma download_episode_streams d k server episode_info status hdrs evs total m :
  quiet d → healthy k →
  let output_file := get_episode_filename d (episode_number episode_info) in
  let temp_file := PathOps.with_suffix output_file ".mp4.part" in
  let n := partial_size k temp_file in
  server (request_for episode_info n) = Response status hdrs evs →
  classify status hdrs n = Sized total m →
  ∃ t,
    download_episode d k server episode_info
    = stream (episode_number episode_info) total temp_file output_file
        [request_for episode_info n] evs None t
    ∧ carries temp_file (artifacts k) d
        (opened_with k temp_file ((0 <? m)%Z && (status =? 206)%Z)) t.
Proof.
  intros Hq Hk out tmp n Hs Hc.
  rewrite download_episode_unfold. cbv zeta. fold out tmp n. rewrite Hs, Hc.
  set (d1 := match state d with Some _ => _ | None => _ end).
  set (d2 := match state d1 with Some _ => _ | None => _ end).
  assert (quiet d2 ∧ output_dir d2 = output_dir d) as [Hq2 Hdir].
  { destruct Hq as [Hp Hc']. unfold d2, d1, quiet.
    destruct (state d) eqn:E; simpl; rewrite ?E; by repeat split. }
  destruct (save_state_healthy d2 k Hk) as (k1 & -> & Ea & Ef & _).
  unfold open_part. rewrite Ef. unfold healthy in Hk. rewrite Hk. simpl.
  eexists. split; [done|].
  split; [done|]. split; [done|]. simpl. split.
  - unfold healthy. simpl. by rewrite Ef.
  - unfold opened_with. by rewrite Ea.
Qed.

(** The whole call when the body arrives in chunks and nobody interferes. *)
Lemma download_episode_chunks d k server episode_info status hdrs chunks total m :
  quiet d → healthy k →
  let output_file := get_episode_filename d (episode_number episode_info) in
  let temp_file := PathOps.with_suffix output_file ".mp4.part" in
  let n := partial_size k temp_file in
  server (request_for episode_info n) = Response status hdrs (map Chunk chunks) →
  classify status hdrs n = Sized total m →
  let r := download_episode d k server episode_info in
  ended r = Finished (Returned true)
  ∧ requests r = [request_for episode_info n]
  ∧ quiet (downloader r)
  ∧ output_dir (downloader r) = output_dir d
  ∧ healthy (disk r)
  ∧ artifacts (disk r)
    = <[output_file :=
          opened_with k temp_file ((0 <? m)%Z && (status =? 206)%Z)
          ++ concat chunks]> (delete temp_file (artifacts k)).
Proof.
  intros Hq Hk out tmp n Hs Hc r.
  destruct (download_episode_streams d k server episode_info status hdrs
              (map Chunk chunks) total m Hq Hk Hs Hc) as (t & E & Ht).
  subst r. rewrite E. clear E. fold out tmp n in Ht |- *.
  destruct (stream_holds (episode_number episode_info) total tmp out
              [request_for episode_info n] (artifacts k) d chunks [] t _ Ht)
    as (t' & E & Ht').
  rewrite app_nil_r in E. rewrite E. simpl.
  by apply (commit_holds (episode_number episode_info) tmp out
              [request_for episode_info n] (artifacts k) d t').
Qed.

Lemma partial_size_some k p old :
  artifacts k !! p = Some old → partial_size k p = Z.of_nat (length old).
Proof. intros H. unfold partial_size. by rewrite H. Qed.

Lemma request_for_range episode_info (n : Z) :
  (0 < n)%Z →
  request_for episode_info n
  = {| url := video_url episode_info;
       headers := {[ "Range" := ("bytes=" ++ Py.str_int n ++ "-")%string ]} |}.
Proof.
  intros Hn. unfold request_for.
  by destruct (Z.ltb_spec 0 n); [|lia].
Qed.


End Protocol.


(** ** The restart when the server ignores the range *)

Section Restart.

Import Engine.

Variable episode : Z.
Variable total_bytes : Z.
Variables temp_file output_file : Path.
Variables log log' : list Request.

Lemma save_and_return_agree b d k :
  agree (save_and_return log b d k) (save_and_return log' b d k).
Proof. unfold save_and_return. by destruct (_save_state d k). Qed.

Lemma body_agree c t :
  match body episode total_bytes temp_file log c t,
        body episode total_bytes temp_file log' c t with
  | Continue t1, Continue t2 => t1 = t2
  | Stop r1, Stop r2 => agree r1 r2
  | _, _ => False
  end.
Proof.
  unfold body. destruct (_cancelled _); [apply save_and_return_agree|].
  destruct c; [done|]. destruct (write _ _ _); [|done].
  destruct (state _); [|done]. destruct (_ <=? _)%Z; [|done].
  by destruct (_save_state _ _).
Qed.

(** The result of the loop does not depend on the requests recorded. *)
Lemma stream_agree evs pending t :
  agree (stream episode total_bytes temp_file output_file log evs pending t)
        (stream episode total_bytes temp_file output_file log' evs pending t).
Proof.
  revert pending t. induction evs as [|ev rest IH]; intros pending t; simpl.
  - destruct pending; [done|]. unfold commit.
    destruct (rename _ _ _); [|done].
    destruct (state _); [apply save_and_return_agree | done].
  - destruct pending as [c|], ev as [a|c'|]; try done.
    + destruct (held _); [apply IH|].
      pose proof (body_agree c (steer a t)) as H. unfold steer in H.
      destruct (body _ _ _ log c _), (body _ _ _ log' c _); try done.
      subst. apply IH.
    + destruct (held _); [apply IH|].
      pose proof (body_agree c' t) as H.
      destruct (body _ _ _ log c' _), (body _ _ _ log' c' _); try done.
      subst. apply IH.
    + apply save_and_return_agree.
Qed.

End Restart.

Section Fallback.

Import Engine.

Lemma classify_full_content hdrs (n : Z) total m :
  classify 200 hdrs n = Sized total m →
  m = 0%Z ∧ classify 200 hdrs 0 = Sized total 0.
Proof.
  unfold classify. simpl. destruct (content_length hdrs) as [v|].
  - destruct (Py.int_of_str v); [|done]. by intros [= <- <-].
  - by intros [= <- <-].
Qed.


End Fallback.

(** ** Cancellation *)

Section Cancellation.

Import Engine.

Lemma get_episode_filename_dir (d d' : VideoDownloader) (ep : Z) :
  output_dir d' = output_dir d →
  get_episode_filename d' ep = get_episode_filename d ep.
Proof. intros H. unfold get_episode_filename. by rewrite H. Qed.

Lemma opened_with_kept (k : Disk) (p : Path) (kept : list Byte.byte) (status : Z) :
  artifacts k !! p = Some kept →
  opened_with k p ((0 <? Z.of_nat (length kept))%Z && (206 =? 206)%Z) = kept.
Proof.
  intros H. unfold opened_with. destruct kept as [|b kept]; [done|].
  rewrite H. simpl. by destruct (Z.ltb_spec 0 (Z.pos (Pos.of_succ_nat (length kept)))).
Qed.

End Cancellation.

(** ** Sessions that are already complete *)

Section Idempotence.

Import Engine.

Lemma filter_completed (done_ l : list Z) :
  (∀ e, e ∈ l → e ∈ done_) → filter (λ ep, ep ∉ done_) l = [].
Proof.
  induction l as [|x l IH]; intros H; [done|].
  rewrite filter_cons_False.
  - apply IH. intros e He. apply H. by right.
  - intros Hx. apply Hx, H. by left.
Qed.

Lemma download_all_from_completed d k server s episodes successful failed log :
  state d = Some s → _cancelled d = false →
  Forall (λ e, episode_number e ∈ Store.completed_episodes s) episodes →
  download_all_from d k server episodes successful failed log
  = {| batch_ended :=
         Finished (Returned ((successful + Z.of_nat (length episodes))%Z, failed));
       batch_downloader := d; batch_disk := k; batch_requests := log |}.
Proof.
  intros Hs Hc Hall. revert successful.
  induction Hall as [|e episodes He Hall IH]; intros successful; simpl.
  - by rewrite Z.add_0_r.
  - rewrite Hc, Hs. rewrite bool_decide_eq_true_2 by done.
    rewrite IH.
    by replace (successful + 1 + Z.of_nat (length episodes))%Z
      with (successful + Z.of_nat (S (length episodes)))%Z by lia.
Qed.

Lemma download_all_from_silent d k server s episodes successful failed log :
  state d = Some s →
  Forall (λ e, episode_number e ∈ Store.completed_episodes s) episodes →
  batch_requests (download_all_from d k server episodes successful failed log)
  = log.
Proof.
  intros Hs Hall. revert successful.
  induction Hall as [|e episodes He Hall IH]; intros successful; simpl; [done|].
  destruct (_cancelled d); [done|].
  rewrite Hs. rewrite bool_decide_eq_true_2 by done. apply IH.
Qed.

(** C9. When every selected episode is completed, nothing remains to
    download; and [download_all] over episodes that are all completed sends
    no request, and on an engine that is not cancelled it counts every
    episode as successful, none as failed, and leaves engine and disk as
    they were. *)
Theorem completed_session_is_idempotent (d : VideoDownloader) (k : Disk)
    (server : Request → Reply) (s : Store.DownloadState)
    (episodes : list EpisodeInfo) :
  state d = Some s →
  ((∀ e, e ∈ Store.selected_episodes s ↔ e ∈ Store.completed_episodes s) →
   get_remaining_episodes d = [])
  ∧ (Forall (λ e, episode_number e ∈ Store.completed_episodes s) episodes →
     batch_requests (download_all d k server episodes) = []
     ∧ (_cancelled d = false →
        download_all d k server episodes
        = {| batch_ended :=
               Finished (Returned (Z.of_nat (length episodes), 0%Z));
             batch_downloader := d; batch_disk := k;
             batch_requests := [] |})).
Proof.
  intros Hs. split.
  - intros Heq. unfold get_remaining_episodes. rewrite Hs.
    apply filter_completed. intros e He. by apply Heq.
  - intros Hall. unfold download_all. split.
    + by eapply download_all_from_silent.
    + intros Hc. by erewrite download_all_from_completed.
Qed.

End Idempotence.


(** Witness for the completed session: nothing remains of [1; 2; 3]. *)
Lemma completed_session_is_idempotent_witness :
  Engine.get_remaining_episodes Sample.finished_engine = [].
Proof.
  refine (proj1
    (completed_session_is_idempotent Sample.finished_engine Sample.disk
       Sample.not_found Sample.finished_session [] _) _).
  - reflexivity.
  - intros e. reflexivity.
Defined.

(** With the cancel flag set, [download_all] stops before the first
    episode and counts nothing. *)
Lemma download_all_when_cancelled :
  Engine.batch_ended
    (Engine.download_all (Engine.cancel Sample.finished_engine) Sample.disk
       Sample.not_found [Sample.episode1])
  = Engine.Finished (Returned (0%Z, 0%Z)).
Proof. vm_compute. reflexivity. Qed.

(** ** What every call keeps *)

Section Keeps.

Import Engine.

Variable episode : Z.
Variable total_bytes : Z.
Variables temp_file output_file : Path.
Variable log : list Request.
Hypothesis distinct : temp_file ≠ output_file.

Abbreviation run := (stream episode total_bytes temp_file output_file log).

Lemma save_and_return_requests b d k :
  requests (save_and_return log b d k) = log.
Proof. unfold save_and_return. by destruct (_save_state d k). Qed.

Lemma save_and_return_artifacts b d k :
  artifacts (disk (save_and_return log b d k)) = artifacts k.
Proof.
  unfold save_and_return. destruct (_save_state d k) as [k1|] eqn:E; [|done].
  by apply save_state_sound in E as [Ea _].
Qed.

Lemma body_stop_requests c t r :
  body episode total_bytes temp_file log c t = Stop r → requests r = log.
Proof.
  unfold body. destruct (_cancelled _).
  { intros [= <-]. apply save_and_return_requests. }
  destruct c; [done|]. destruct (write _ _ _); [|by intros [= <-]].
  destruct (state _); [|done]. destruct (_ <=? _)%Z; [|done].
  destruct (_save_state _ _); [done|]. by intros [= <-].
Qed.

(** The loop sends nothing: the requests of the result are those recorded
    before it started. *)
Lemma stream_requests evs pending t : requests (run evs pending t) = log.
Proof.
  apply (stream_invariant episode total_bytes temp_file output_file log
           (λ _, True) (λ r, requests r = log)); try done.
  - intros c t' r _. apply body_stop_requests.
  - intros t' _. unfold commit. destruct (rename _ _ _); [|done].
    destruct (state _); [apply save_and_return_requests | done].
  - intros t' _. apply save_and_return_requests.
Qed.

(** A turn of the loop changes no artifact but the partial one. *)
Lemma body_artifacts c t p :
  p ≠ temp_file →
  match body episode total_bytes temp_file log c t with
  | Continue t' => artifacts (dk t') !! p = artifacts (dk t) !! p
  | Stop r => artifacts (disk r) !! p = artifacts (dk t) !! p
  end.
Proof.
  intros Hp. unfold body. destruct (_cancelled _).
  { by rewrite save_and_return_artifacts. }
  destruct c as [|b c]; [done|].
  destruct (write _ _ _) as [k1|] eqn:Ew; [|done].
  assert (artifacts k1 !! p = artifacts (dk t) !! p) as Hk1.
  { unfold write in Ew. destruct (space _).
    - destruct (_ <? _)%Z; [done|]. injection Ew as <-. simpl.
      by rewrite lookup_alter_ne.
    - injection Ew as <-. simpl. by rewrite lookup_alter_ne. }
  destruct (state _); [|done]. destruct (_ <=? _)%Z; [|done].
  destruct (_save_state _ _) as [k2|] eqn:Es; [|done].
  apply save_state_sound in Es as [Ea _]. simpl. by rewrite Ea.
Qed.

(** The loop and the commit leave every artifact other than the partial
    and the final one as it was. *)
Lemma stream_frame p evs pending t :
  p ≠ temp_file → p ≠ output_file →
  artifacts (disk (run evs pending t)) !! p = artifacts (dk t) !! p.
Proof.
  intros Hp Hq.
  apply (stream_invariant episode total_bytes temp_file output_file log
           (λ t', artifacts (dk t') !! p = artifacts (dk t) !! p)
           (λ r, artifacts (disk r) !! p = artifacts (dk t) !! p)); try done.
  - intros c t' t'' Ht' E. pose proof (body_artifacts c t' p Hp) as H.
    rewrite E in H. by rewrite H.
  - intros c t' r Ht' E. pose proof (body_artifacts c t' p Hp) as H.
    rewrite E in H. by rewrite H.
  - intros t' Ht'. unfold commit, rename. destruct (rename_denied _); [done|].
    destruct (artifacts (dk t') !! temp_file) as [data|]; [|done].
    assert (<[output_file:=data]> (delete temp_file (artifacts (dk t'))) !! p
            = artifacts (dk t) !! p) as H.
    { by rewrite lookup_insert_ne, lookup_delete_ne. }
    destruct (state _); [|done]. by rewrite save_and_return_artifacts.
  - intros t' Ht'. by rewrite save_and_return_artifacts.
Qed.

(** A loop that ends with [False] has not touched the final artifact. *)
Lemma stream_false_keeps_final evs pending t :
  ended (run evs pending t) = Finished (Returned false) →
  artifacts (disk (run evs pending t)) !! output_file
  = artifacts (dk t) !! output_file.
Proof.
  apply (stream_invariant episode total_bytes temp_file output_file log
           (λ t', artifacts (dk t') !! output_file
                  = artifacts (dk t) !! output_file)
           (λ r, ended r = Finished (Returned false) →
                 artifacts (disk r) !! output_file
                 = artifacts (dk t) !! output_file)); try done.
  - intros c t' t'' Ht' E.
    pose proof (body_artifacts c t' output_file (not_eq_sym distinct)) as H.
    rewrite E in H. by rewrite H.
  - intros c t' r Ht' E _.
    pose proof (body_artifacts c t' output_file (not_eq_sym distinct)) as H.
    rewrite E in H. by rewrite H.
  - intros t' Ht'. unfold commit. destruct (rename _ _ _); [|done].
    destruct (state _); [|done].
    match goal with
    | |- context [save_and_return log true ?d ?k] =>
        destruct (save_and_return_ended log true d k) as [->|[-> _]]
    end; done.
  - intros t' Ht' _. by rewrite save_and_return_artifacts.
Qed.

(** A loop that ends with [True] has renamed the partial artifact and
    marked the episode. *)
Lemma stream_true_commits evs pending t :
  ended (run evs pending t) = Finished (Returned true) →
  artifacts (disk (run evs pending t)) !! temp_file = None
  ∧ is_Some (artifacts (disk (run evs pending t)) !! output_file)
  ∧ ∀ s, state (downloader (run evs pending t)) = Some s →
         episode ∈ Store.completed_episodes s.
Proof.
  apply (stream_invariant episode total_bytes temp_file output_file log
           (λ _, True)
           (λ r, ended r = Finished (Returned true) →
                 artifacts (disk r) !! temp_file = None
                 ∧ is_Some (artifacts (disk r) !! output_file)
                 ∧ ∀ s, state (downloader r) = Some s →
                        episode ∈ Store.completed_episodes s)); try done.
  - intros c t' r _ E. unfold body in E. destruct (_cancelled _).
    { simplify_eq.
      destruct (save_and_return_ended log false (dl t') (dk t'))
        as [->|[-> _]]; done. }
    destruct c; [done|]. destruct (write _ _ _); [|by simplify_eq].
    destruct (state _); [|done]. destruct (_ <=? _)%Z; [|done].
    destruct (_save_state _ _); by simplify_eq.
  - intros t' _. unfold commit, rename. destruct (rename_denied _); [done|].
    destruct (artifacts (dk t') !! temp_file) as [data|]; [|done].
    destruct (state (dl t')) as [s|] eqn:Est.
    + intros _. rewrite save_and_return_artifacts, save_and_return_downloader.
      simpl. split; [|split].
      * by rewrite lookup_insert_ne, lookup_delete_eq.
      * rewrite lookup_insert_eq. by eexists.
      * intros s' [= <-]. simpl. case_bool_decide; [done|]. set_solver.
    + intros _. simpl. split; [|split].
      * by rewrite lookup_insert_ne, lookup_delete_eq.
      * rewrite lookup_insert_eq. by eexists.
      * intros s'. by rewrite Est.
  - intros t' _.
    destruct (save_and_return_ended log false (dl t') (dk t'))
      as [->|[-> _]]; done.
Qed.

End Keeps.

Section CallKeeps.

Import Engine.

Implicit Types (d : VideoDownloader) (k : Disk) (server : Request → Reply)
  (episode_info : EpisodeInfo).

Lemma rsplit_dot_app (s t : string) :
  Py.contains "." t = false →
  PathOps.rsplit_dot (s ++ String "." t)%string = Some (s, String "." t).
Proof.
  intros Ht.
  induction s as [|c s IH]; rewrite ?string_app_nil, ?string_app_cons; simpl.
  - by rewrite (rsplit_dot_none t Ht).
  - by rewrite IH.
Qed.

(** The final artifact of one episode is never the partial artifact of
    another. *)
Lemma final_is_no_partial d (a b : Z) :
  get_episode_filename d a
  ≠ PathOps.with_suffix (get_episode_filename d b) ".mp4.part".
Proof.
  rewrite temp_file_name. unfold get_episode_filename, PathOps.join.
  intros H. apply (f_equal name) in H. simpl in H.
  apply (f_equal PathOps.rsplit_dot) in H.
  rewrite <- (string_app_assoc "ep_" (Py.format_0d 2 a) ".mp4") in H.
  rewrite (rsplit_dot_app _ "mp4" eq_refl) in H.
  rewrite (rsplit_dot_app _ "part" eq_refl) in H. discriminate.
Qed.

Lemma partial_inj d (a b : Z) :
  PathOps.with_suffix (get_episode_filename d a) ".mp4.part"
  = PathOps.with_suffix (get_episode_filename d b) ".mp4.part" → a = b.
Proof.
  rewrite !temp_file_name. unfold PathOps.join. intros H.
  apply (f_equal name) in H. simpl in H. apply string_app_inv_tail in H.
  apply (get_episode_filename_inj d). unfold get_episode_filename, PathOps.join.
  by rewrite H.
Qed.

(** X1. Every call sends exactly one request, whatever happens next: to
    the URL of the descriptor, with a [Range] header from the size of the
    partial artifact when that size is positive and without header
    otherwise.  Nothing is ever asked twice. *)
Theorem one_request_per_call d k server episode_info :
  requests (download_episode d k server episode_info)
  = [request_for episode_info
       (partial_size k
          (PathOps.with_suffix
             (get_episode_filename d (episode_number episode_info))
             ".mp4.part"))].
Proof.
  rewrite download_episode_unfold. cbv zeta.
  destruct (server _) as [|status hdrs evs].
  { apply save_and_return_requests. }
  destruct (classify _ _ _) as [total m| |]; [|done|done].
  destruct (_save_state _ _) as [k1|]; [|done].
  destruct (open_part _ _ _) as [k2|]; [|done].
  apply stream_requests.
Qed.

(** X2. A call changes no artifact but the partial and the final artifact
    of its own episode; in particular the two artifacts of every other
    episode are as they were, however the call ends. *)
Theorem other_artifacts_untouched d k server episode_info :
  let output_file := get_episode_filename d (episode_number episode_info) in
  let temp_file := PathOps.with_suffix output_file ".mp4.part" in
  let r := download_episode d k server episode_info in
  (∀ p, p ≠ temp_file → p ≠ output_file →
        artifacts (disk r) !! p = artifacts k !! p)
  ∧ (∀ other : Z, other ≠ episode_number episode_info →
       artifacts (disk r) !! get_episode_filename d other
       = artifacts k !! get_episode_filename d other
       ∧ artifacts (disk r)
           !! PathOps.with_suffix (get_episode_filename d other) ".mp4.part"
         = artifacts k
           !! PathOps.with_suffix (get_episode_filename d other) ".mp4.part").
Proof.
  intros out tmp r.
  assert (∀ p, p ≠ tmp → p ≠ out → artifacts (disk r) !! p = artifacts k !! p)
    as Hframe.
  { intros p Hp Hq. subst r. rewrite download_episode_unfold. cbv zeta.
    fold out tmp.
    destruct (server _) as [|status hdrs evs].
    { by rewrite save_and_return_artifacts. }
    destruct (classify _ _ _) as [total m| |]; [|done|done].
    destruct (_save_state _ _) as [k1|] eqn:E1; [|done].
    apply save_state_sound in E1 as [Ea1 _].
    destruct (open_part _ _ _) as [k2|] eqn:E2; simpl; [|by rewrite Ea1].
    rewrite (stream_frame _ _ _ _ _ p) by done. simpl.
    unfold open_part in E2. destruct (part_denied _); [done|].
    injection E2 as <-. simpl. by rewrite lookup_insert_ne, Ea1. }
  split; [done|]. intros other Hother. split.
  - apply Hframe.
    + apply final_is_no_partial.
    + intros H. by apply get_episode_filename_inj in H.
  - apply Hframe.
    + intros H. by apply partial_inj in H.
    + apply not_eq_sym, final_is_no_partial.
Qed.

(** X3. A call that returns [False] leaves the final artifact of the
    episode exactly as it was: absent if it was absent, unchanged if an
    earlier transfer had produced it. *)
Theorem failure_keeps_final d k server episode_info :
  let output_file := get_episode_filename d (episode_number episode_info) in
  let r := download_episode d k server episode_info in
  ended r = Finished (Returned false) →
  artifacts (disk r) !! output_file = artifacts k !! output_file.
Proof.
  intros out r. subst r. rewrite download_episode_unfold. cbv zeta. fold out.
  set (tmp := PathOps.with_suffix out ".mp4.part").
  assert (tmp ≠ out) as Hd by apply temp_file_neq.
  destruct (server _) as [|status hdrs evs].
  { by rewrite save_and_return_artifacts. }
  destruct (classify _ _ _) as [total m| |]; [|done|done].
  destruct (_save_state _ _) as [k1|] eqn:E1; [|done].
  apply save_state_sound in E1 as [Ea1 _].
  destruct (open_part _ _ _) as [k2|] eqn:E2; [|done].
  intros He. rewrite (stream_false_keeps_final _ _ _ _ _ Hd _ _ _ He). simpl.
  unfold open_part in E2. destruct (part_denied _); [done|].
  injection E2 as <-. simpl. by rewrite lookup_insert_ne, Ea1.
Qed.

(** X4. A call that returns [True] has committed: the partial artifact is
    gone, the final artifact exists, and a session state, when there is
    one, lists the episode among the completed ones. *)
Theorem success_commits d k server episode_info :
  let output_file := get_episode_filename d (episode_number episode_info) in
  let temp_file := PathOps.with_suffix output_file ".mp4.part" in
  let r := download_episode d k server episode_info in
  ended r = Finished (Returned true) →
  artifacts (disk r) !! temp_file = None
  ∧ is_Some (artifacts (disk r) !! output_file)
  ∧ ∀ s, state (downloader r) = Some s →
         episode_number episode_info ∈ Store.completed_episodes s.
Proof.
  intros out tmp r. subst r. rewrite download_episode_unfold. cbv zeta.
  fold out tmp.
  assert (tmp ≠ out) as Hd by apply temp_file_neq.
  destruct (server _) as [|status hdrs evs].
  { match goal with
    | |- context [save_and_return ?l false ?d ?k] =>
        destruct (save_and_return_ended l false d k) as [->|[-> _]]
    end; done. }
  destruct (classify _ _ _) as [total m| |]; [|done|done].
  destruct (_save_state _ _) as [k1|]; [|done].
  destruct (open_part _ _ _) as [k2|]; [|done].
  by apply stream_true_commits.
Qed.

End CallKeeps.

(** Witness: while episode 1 is resumed, episode 2 on the shelf is left
    alone. *)
Lemma other_artifacts_untouched_witness :
  Engine.artifacts
    (Engine.disk
       (Engine.download_episode Sample.engine Sample.shelf_disk
          (Sample.partial_content "bytes 500-999/1000"
             [Engine.Chunk (Sample.ys 500)])
          Sample.episode1))
    !! Engine.get_episode_filename Sample.engine 2
  = Engine.artifacts Sample.shelf_disk
    !! Engine.get_episode_filename Sample.engine 2.
Proof.
  refine (proj1 (proj2
    (other_artifacts_untouched Sample.engine Sample.shelf_disk
       (Sample.partial_content "bytes 500-999/1000"
          [Engine.Chunk (Sample.ys 500)])
       Sample.episode1) 2%Z _)).
  simpl. lia.
Defined.

(** Witness: a 404 on a resumed episode leaves the final artifact absent. *)
Lemma failure_keeps_final_witness :
  Engine.artifacts
    (Engine.disk
       (Engine.download_episode Sample.engine Sample.resumable_disk
          Sample.not_found Sample.episode1))
    !! Engine.get_episode_filename Sample.engine 1
  = Engine.artifacts Sample.resumable_disk
    !! Engine.get_episode_filename Sample.engine 1.
Proof.
  apply (failure_keeps_final Sample.engine Sample.resumable_disk
           Sample.not_found Sample.episode1).
  vm_compute. reflexivity.
Defined.

(** Witness: after 1000 bytes in one response the partial artifact is
    gone. *)
Lemma success_commits_witness :
  Engine.artifacts
    (Engine.disk
       (Engine.download_episode Sample.engine Sample.disk
          (Sample.full_content "1000" [Engine.Chunk (Sample.xs 1000)])
          Sample.episode1))
    !! PathOps.with_suffix (Engine.get_episode_filename Sample.engine 1)
         ".mp4.part"
  = None.
Proof.
  refine (proj1
    (success_commits Sample.engine Sample.disk
       (Sample.full_content "1000" [Engine.Chunk (Sample.xs 1000)])
       Sample.episode1 _)).
  vm_compute. reflexivity.
Defined.

(** ** What every call keeps of the session *)

Section SessionKeeps.

Import Engine.

Variable episode : Z.
Variable total_bytes : Z.
Variables temp_file output_file : Path.
Variable log : list Request.
Variable s0 : Store.DownloadState.
Variable d0 : VideoDownloader.

Abbreviation run := (stream episode total_bytes temp_file output_file log).

(** The series, the selection and the completed episodes are those of
    [s0]. *)
Let steady (t : Transfer) : Prop :=
  ∃ s, state (dl t) = Some s ∧ same_series s0 s
       ∧ Store.completed_episodes s = Store.completed_episodes s0.

Let grown (r : Result) : Prop :=
  ∃ s, state (downloader r) = Some s ∧ same_series s0 s
       ∧ ((Store.completed_episodes s = Store.completed_episodes s0)
          ∨ ((episode ∉ Store.completed_episodes s0)
             ∧ Store.completed_episodes s
               = Store.completed_episodes s0 ++ [episode]
             ∧ ended r ≠ Finished (Returned false))).

Lemma stream_session_grows evs pending t : steady t → grown (run evs pending t).
Proof.
  apply (stream_invariant episode total_bytes temp_file output_file log
           steady grown).
  - intros a t' H. by destruct a.
  - intros c t' t'' (s & Hs & Hser & Hdone) E. unfold body in E.
    destruct (_cancelled _); [done|]. destruct c; [by simplify_eq; exists s|].
    destruct (write _ _ _); [|done]. rewrite Hs in E.
    destruct (_ <=? _)%Z; [|by simplify_eq; exists s].
    destruct (_save_state _ _); simplify_eq. by eexists.
  - intros c t' r (s & Hs & Hser & Hdone) E. unfold body in E.
    destruct (_cancelled _).
    { simplify_eq. exists s. rewrite save_and_return_downloader. auto. }
    destruct c; [done|]. destruct (write _ _ _); [|simplify_eq; exists s; auto].
    rewrite Hs in E. destruct (_ <=? _)%Z; [|done].
    destruct (_save_state _ _); simplify_eq. eexists. simpl. auto.
  - intros t' (s & Hs & Hser & Hdone). unfold commit.
    destruct (rename _ _ _); [|exists s; auto]. rewrite Hs.
    eexists. rewrite save_and_return_downloader. simpl.
    split; [done|]. split; [done|]. rewrite Hdone.
    case_bool_decide; [by left|]. right. split; [done|]. split; [done|].
    match goal with
    | |- context [save_and_return log true ?d ?k] =>
        destruct (save_and_return_ended log true d k) as [->|[-> _]]
    end; done.
  - intros t' (s & Hs & Hser & Hdone). exists s.
    rewrite save_and_return_downloader. auto.
  - intros t' (s & Hs & Hser & Hdone). exists s. auto.
Qed.

(** The snapshot written when a call returns is the state in memory. *)
Lemma save_and_return_snapshot b b' d k s :
  ended (save_and_return log b d k) = Finished (Returned b') →
  state d = Some s →
  documents (disk (save_and_return log b d k)) !! state_file d
  = Some (Document (Store.asdict s)).
Proof.
  unfold save_and_return, _save_state. intros He Hs. rewrite Hs in *.
  destruct (snapshot_denied _); [done|]. simpl.
  unfold Store.save. apply lookup_insert_eq.
Qed.

Let here (t : Transfer) : Prop := output_dir (dl t) = output_dir d0.

Let saved (r : Result) : Prop :=
  ∀ b s, ended r = Finished (Returned b) → state (downloader r) = Some s →
         documents (disk r) !! state_file d0 = Some (Document (Store.asdict s)).

Lemma save_and_return_saved b d k :
  output_dir d = output_dir d0 → saved (save_and_return log b d k).
Proof.
  intros Hd b' s He Hs. rewrite save_and_return_downloader in Hs.
  rewrite <- (save_and_return_snapshot b b' d k s He Hs).
  unfold state_file. by rewrite Hd.
Qed.

Lemma stream_saved evs pending t : here t → saved (run evs pending t).
Proof.
  apply (stream_invariant episode total_bytes temp_file output_file log
           here saved).
  - intros a t' H. by destruct a.
  - intros c t' t'' Ht' E. unfold body in E.
    destruct (_cancelled _); [done|]. destruct c; [by simplify_eq|].
    destruct (write _ _ _); [|done].
    destruct (state _); [|by simplify_eq].
    destruct (_ <=? _)%Z; [|by simplify_eq].
    destruct (_save_state _ _); by simplify_eq.
  - intros c t' r Ht' E. unfold body in E.
    destruct (_cancelled _).
    { simplify_eq. by apply save_and_return_saved. }
    destruct c; [done|]. destruct (write _ _ _); [|by simplify_eq; intros ??].
    destruct (state _); [|done]. destruct (_ <=? _)%Z; [|done].
    destruct (_save_state _ _); simplify_eq. by intros ??.
  - intros t' Ht'. unfold commit.
    destruct (rename _ _ _); [|by intros ??].
    destruct (state (dl t')) eqn:Est.
    + by apply save_and_return_saved.
    + intros b s _. simpl. by rewrite Est.
  - intros t' Ht'. by apply save_and_return_saved.
  - by intros t' _ ??.
Qed.

End SessionKeeps.

Section CallSession.

Import Engine.

Implicit Types (d : VideoDownloader) (k : Disk) (server : Request → Reply)
  (episode_info : EpisodeInfo) (s : Store.DownloadState).

(** X5. A call never rewrites the session: the series, the selection and
    the output directory stay as they were, and the list of completed
    episodes is either unchanged or extended by the episode of the call,
    once and at the end; it is unchanged whenever the call returns
    [False]. *)
Theorem session_only_grows d k server episode_info s :
  state d = Some s →
  let ep := episode_number episode_info in
  let r := download_episode d k server episode_info in
  ∃ s', state (downloader r) = Some s'
        ∧ same_series s s'
        ∧ ((Store.completed_episodes s' = Store.completed_episodes s)
           ∨ ((ep ∉ Store.completed_episodes s)
              ∧ Store.completed_episodes s' = Store.completed_episodes s ++ [ep]
              ∧ ended r ≠ Finished (Returned false))).
Proof.
  intros Hs ep r. subst r. rewrite download_episode_unfold. cbv zeta.
  rewrite Hs.
  assert (same_series s s) as Hrefl by (by repeat split).
  destruct (server _) as [|status hdrs evs].
  { eexists. rewrite save_and_return_downloader. simpl. auto. }
  destruct (classify _ _ _) as [total m| |];
    [|eexists; simpl; by auto|eexists; simpl; by auto].
  simpl (state (set_state _ _)).
  destruct (_save_state _ _) as [k1|]; [|eexists; simpl; by auto].
  destruct (open_part _ _ _) as [k2|]; [|eexists; simpl; by auto].
  apply stream_session_grows. eexists. simpl. auto.
Qed.

(** X6. A status other than 200 and 206 fails the call at once and writes
    nothing: the disk, artifacts and snapshot alike, is the one the call
    found, while the session state in memory already names the episode as
    the current one. *)
Theorem other_status_writes_nothing d k server episode_info status hdrs evs :
  let temp_file :=
    PathOps.with_suffix
      (get_episode_filename d (episode_number episode_info)) ".mp4.part" in
  server (request_for episode_info (partial_size k temp_file))
    = Response status hdrs evs →
  status ≠ 200%Z → status ≠ 206%Z →
  let r := download_episode d k server episode_info in
  ended r = Finished (Returned false)
  ∧ disk r = k
  ∧ state (downloader r)
    = (λ s, with_current_episode s (Some (episode_number episode_info)))
        <$> state d.
Proof.
  intros tmp Hs H200 H206 r. subst r.
  rewrite download_episode_unfold. cbv zeta. fold tmp. rewrite Hs.
  unfold classify.
  destruct (Z.eqb_spec status 206); [done|].
  destruct (Z.eqb_spec status 200); [done|].
  simpl. split; [done|]. split; [done|].
  destruct (state d) eqn:E; simpl; by rewrite ?E.
Qed.

(** X7. When a call returns after a request that failed or was answered
    with status 200 or 206, the snapshot on disk is the session state in
    memory: loading it gives that state back. *)
Theorem returned_call_is_saved d k server episode_info (b : bool) s :
  let temp_file :=
    PathOps.with_suffix
      (get_episode_filename d (episode_number episode_info)) ".mp4.part" in
  (∀ status hdrs evs,
     server (request_for episode_info (partial_size k temp_file))
       = Response status hdrs evs →
     status = 200%Z ∨ status = 206%Z) →
  let r := download_episode d k server episode_info in
  ended r = Finished (Returned b) →
  state (downloader r) = Some s →
  Store.load (documents (disk r)) (state_file d)
  = Returned (Some (Store.reflect s)).
Proof.
  intros tmp Hstatus r He Hst.
  assert (documents (disk r) !! state_file d
          = Some (Document (Store.asdict s))) as Hdoc.
  { revert He Hst. subst r. rewrite download_episode_unfold. cbv zeta.
    fold tmp.
    set (d1 := match state d with Some _ => _ | None => _ end).
    assert (output_dir d1 = output_dir d) as Hd1.
    { unfold d1. by destruct (state d). }
    destruct (server _) as [|status hdrs evs] eqn:Es.
    { intros He Hst. by eapply (save_and_return_saved _ d). }
    destruct (classify _ _ _) as [total m| |] eqn:Ec; [|done|].
    - set (d2 := match state d1 with Some _ => _ | None => _ end).
      assert (output_dir d2 = output_dir d) as Hd2.
      { unfold d2. by destruct (state d1). }
      destruct (_save_state _ _) as [k1|]; [|done].
      destruct (open_part _ _ _) as [k2|]; [|done].
      intros He Hst. by eapply (stream_saved _ _ _ _ _ d).
    - unfold classify in Ec. destruct (Hstatus _ _ _ eq_refl) as [-> | ->].
      + simpl in Ec. by repeat case_match.
      + simpl in Ec. by repeat case_match. }
  unfold Store.load. by rewrite (load_body_asdict s).
Qed.

End CallSession.

(** ** The checkpoint and the partial artifact *)

Section Checkpoint.

Import Engine.

Variable episode : Z.
Variable total_bytes : Z.
Variables temp_file output_file : Path.
Variable log : list Request.

Abbreviation run := (stream episode total_bytes temp_file output_file log).

(** The counter of the loop is the size of the partial artifact, and the
    checkpoint in memory counts no more. *)
Let counted (t : Transfer) : Prop :=
  ∃ x, artifacts (dk t) !! temp_file = Some x
       ∧ downloaded t = Z.of_nat (length x)
       ∧ ∀ s, state (dl t) = Some s →
              checkpoint_within episode total_bytes (downloaded t) s.

Let covered (r : Result) : Prop :=
  ended r = Finished (Returned false) →
  ∃ x, artifacts (disk r) !! temp_file = Some x
       ∧ ∀ s, state (downloader r) = Some s →
              checkpoint_within episode total_bytes (Z.of_nat (length x)) s.

Lemma save_and_return_covered d k x :
  artifacts k !! temp_file = Some x →
  (∀ s, state d = Some s →
        checkpoint_within episode total_bytes (Z.of_nat (length x)) s) →
  covered (save_and_return log false d k).
Proof.
  intros Hx Hs _. exists x.
  by rewrite save_and_return_artifacts, save_and_return_downloader.
Qed.

Lemma checkpoint_within_le ep total (n n' : Z) s :
  (n ≤ n')%Z → checkpoint_within ep total n s → checkpoint_within ep total n' s.
Proof.
  intros Hn (Hep & p & Hp & He & Ht & Hc & Hd).
  split; [done|]. exists p. repeat split; try done. lia.
Qed.

Lemma stream_covered evs pending t : counted t → covered (run evs pending t).
Proof.
  apply (stream_invariant episode total_bytes temp_file output_file log
           counted covered).
  - intros a t' H. by destruct a.
  - intros c t' t'' (x & Hx & Hn & Hs) E. unfold body in E.
    destruct (_cancelled _); [done|].
    destruct c as [|b c]; [simplify_eq; by exists x|].
    destruct (write _ _ _) as [k1|] eqn:Ew; [|done].
    assert (artifacts k1 !! temp_file = Some (x ++ b :: c)) as Hk1.
    { unfold write in Ew. destruct (space _).
      - destruct (_ <? _)%Z; [done|]. injection Ew as <-. simpl.
        by rewrite lookup_alter_eq, Hx.
      - injection Ew as <-. simpl. by rewrite lookup_alter_eq, Hx. }
    assert (downloaded t' + Z.of_nat (length (b :: c))
            = Z.of_nat (length (x ++ b :: c)))%Z as Hlen.
    { rewrite length_app. lia. }
    destruct (state (dl t')) as [s|] eqn:Est.
    + destruct (_ <=? _)%Z.
      * destruct (_save_state _ _) as [k2|] eqn:E2; [|done].
        apply save_state_sound in E2 as [Ea _]. simplify_eq.
        exists (x ++ b :: c). simpl. rewrite Ea. split; [done|].
        split; [done|]. intros s' [= <-].
        destruct (Hs s eq_refl) as (Hep & _).
        split; [done|]. eexists. simpl. repeat split; try done.
      * simplify_eq. exists (x ++ b :: c). simpl. split; [done|].
        split; [done|]. intros s' Hs'. rewrite Est in Hs'. simplify_eq.
        eapply checkpoint_within_le; [|by apply Hs]. lia.
    + simplify_eq. exists (x ++ b :: c). simpl. split; [done|].
      split; [done|]. intros s' Hs'. by rewrite Est in Hs'.
  - intros c t' r (x & Hx & Hn & Hs) E. unfold body in E.
    destruct (_cancelled _).
    { simplify_eq. apply (save_and_return_covered _ _ x); [done|].
      intros s Hst. rewrite <- Hn. by apply Hs. }
    destruct c as [|b c]; [done|].
    destruct (write _ _ _) as [k1|]; [|by simplify_eq].
    destruct (state (dl t')); [|done]. destruct (_ <=? _)%Z; [|done].
    destruct (_save_state _ _); by simplify_eq.
  - intros t' _. unfold commit. destruct (rename _ _ _); [|done].
    destruct (state _); [|done].
    match goal with
    | |- context [save_and_return log true ?d ?k] =>
        destruct (save_and_return_ended log true d k) as [E|[E _]]
    end; by intros He; rewrite E in He.
  - intros t' (x & Hx & Hn & Hs).
    apply (save_and_return_covered _ _ x); [done|].
    intros s Hst. rewrite <- Hn. by apply Hs.
  - by intros t' _.
Qed.

End Checkpoint.

Section CallCheckpoint.

Import Engine.

Lemma partial_size_nonneg (k : Disk) (p : Path) : (0 ≤ partial_size k p)%Z.
Proof. unfold partial_size. destruct (artifacts k !! p); lia. Qed.

Lemma classify_sized (status : Z) (hdrs : Headers) (n total m : Z) :
  classify status hdrs n = Sized total m →
  (status = 206%Z ∧ m = n) ∨ (status = 200%Z ∧ m = 0%Z).
Proof.
  unfold classify. destruct (Z.eqb_spec status 206) as [->|].
  { intros H. left. split; [done|]. by repeat case_match; simplify_eq. }
  destruct (Z.eqb_spec status 200) as [->|]; [|done].
  intros H. right. split; [done|]. by repeat case_match; simplify_eq.
Qed.

(** X8. After a response with status 200 or 206, a call that returns
    [False] leaves a checkpoint that never overstates the disk: the session
    state names the episode as current, its progress record is one of that
    episode with the total of the response, and the bytes it counts are at
    most the bytes the partial artifact holds. *)
Theorem checkpoint_never_overstates (d : VideoDownloader) (k : Disk)
    (server : Request → Reply) (episode_info : EpisodeInfo)
    (status : Z) (hdrs : Headers) (evs : list event) (total m : Z) :
  let temp_file :=
    PathOps.with_suffix
      (get_episode_filename d (episode_number episode_info)) ".mp4.part" in
  let n := partial_size k temp_file in
  server (request_for episode_info n) = Response status hdrs evs →
  classify status hdrs n = Sized total m →
  let r := download_episode d k server episode_info in
  ended r = Finished (Returned false) →
  ∃ x, artifacts (disk r) !! temp_file = Some x
       ∧ ∀ s, state (downloader r) = Some s →
              checkpoint_within (episode_number episode_info) total
                (Z.of_nat (length x)) s.
Proof.
  intros tmp n Hs Hc r. subst r. rewrite download_episode_unfold. cbv zeta.
  fold tmp n. rewrite Hs, Hc.
  set (d1 := match state d with Some _ => _ | None => _ end).
  set (d2 := match state d1 with Some _ => _ | None => _ end).
  assert (∀ s, state d2 = Some s →
               checkpoint_within (episode_number episode_info) total m s)
    as Hd2.
  { unfold d2, d1. destruct (state d) eqn:E; simpl; rewrite ?E; [|done].
    intros s [= <-]. split; [done|]. eexists. by repeat split. }
  destruct (_save_state _ _) as [k1|] eqn:E1; [|done].
  apply save_state_sound in E1 as [Ea1 _].
  destruct (open_part _ _ _) as [k2|] eqn:E2; [|done].
  apply stream_covered.
  unfold open_part in E2. destruct (part_denied _); [done|].
  injection E2 as <-. simpl. eexists. rewrite lookup_insert_eq.
  split; [done|]. split; [|done].
  pose proof (partial_size_nonneg k tmp) as Hn. fold n in Hn.
  destruct (classify_sized _ _ _ _ _ Hc) as [[-> ->]|[-> ->]]; [|done].
  rewrite Ea1. destruct (Z.ltb_spec 0 n); simpl.
  - unfold n, partial_size in *. by destruct (artifacts k !! tmp).
  - lia.
Qed.

End CallCheckpoint.

(** Witness: the session of the sample after a first episode. *)
Lemma session_only_grows_witness :
  ∃ s', Engine.state
          (Engine.downloader
             (Engine.download_episode Sample.engine Sample.disk
                (Sample.full_content "1000" [Engine.Chunk (Sample.xs 1000)])
                Sample.episode1))
        = Some s'
        ∧ same_series Sample.session s'
        ∧ ((Store.completed_episodes s'
            = Store.completed_episodes Sample.session)
           ∨ ((1%Z ∉ Store.completed_episodes Sample.session)
              ∧ Store.completed_episodes s'
                = Store.completed_episodes Sample.session ++ [1%Z]
              ∧ Engine.ended
                  (Engine.download_episode Sample.engine Sample.disk
                     (Sample.full_content "1000"
                        [Engine.Chunk (Sample.xs 1000)])
                     Sample.episode1)
                ≠ Engine.Finished (Returned false))).
Proof.
  apply (session_only_grows Sample.engine Sample.disk
           (Sample.full_content "1000" [Engine.Chunk (Sample.xs 1000)])
           Sample.episode1 Sample.session).
  reflexivity.
Defined.

(** Witness: a 404 on the sample leaves the disk as found. *)
Lemma other_status_writes_nothing_witness :
  Engine.disk
    (Engine.download_episode Sample.engine Sample.resumable_disk
       Sample.not_found Sample.episode1)
  = Sample.resumable_disk.
Proof.
  refine (proj1 (proj2
    (other_status_writes_nothing Sample.engine Sample.resumable_disk
       Sample.not_found Sample.episode1 404
       {| Engine.content_range := None; Engine.content_length := None |} []
       _ _ _))).
  - reflexivity.
  - lia.
  - lia.
Defined.

(** Witness: the snapshot after a cancelled first chunk loads as the state
    in memory. *)
Lemma returned_call_is_saved_witness :
  let r := Engine.download_episode Sample.engine Sample.disk
             (Sample.full_content "10000"
                [Engine.Chunk (Sample.xs 1000); Engine.Control Engine.Cancel;
                 Engine.Chunk (Sample.xs 1000)])
             Sample.episode1 in
  Store.load (Engine.documents (Engine.disk r))
    (Engine.state_file Sample.engine)
  = Returned
      (Some (Store.reflect
               (Engine.with_current_progress
                  (Engine.with_current_episode Sample.session (Some 1%Z))
                  (Some (Engine.progress_at 1 10000 0))))).
Proof.
  apply (returned_call_is_saved Sample.engine Sample.disk
           (Sample.full_content "10000"
              [Engine.Chunk (Sample.xs 1000); Engine.Control Engine.Cancel;
               Engine.Chunk (Sample.xs 1000)])
           Sample.episode1 false).
  - intros status hdrs evs [= <- _ _]. by left.
  - vm_compute. reflexivity.
  - vm_compute. reflexivity.
Defined.

(** Witness: cancelled after 1000 of 10000 bytes, the checkpoint counts no
    more than the partial artifact holds. *)
Lemma checkpoint_never_overstates_witness :
  let r := Engine.download_episode Sample.engine Sample.disk
             (Sample.full_content "10000"
                [Engine.Chunk (Sample.xs 1000); Engine.Control Engine.Cancel;
                 Engine.Chunk (Sample.xs 1000)])
             Sample.episode1 in
  ∃ x, Engine.artifacts (Engine.disk r)
         !! PathOps.with_suffix (Engine.get_episode_filename Sample.engine 1)
              ".mp4.part"
       = Some x
       ∧ ∀ s, Engine.state (Engine.downloader r) = Some s →
              checkpoint_within 1 10000 (Z.of_nat (length x)) s.
Proof.
  apply (checkpoint_never_overstates Sample.engine Sample.disk
           (Sample.full_content "10000"
              [Engine.Chunk (Sample.xs 1000); Engine.Control Engine.Cancel;
               Engine.Chunk (Sample.xs 1000)])
           Sample.episode1 200
           {| Engine.content_range := None;
              Engine.content_length := Some "10000" |}
           [Engine.Chunk (Sample.xs 1000); Engine.Control Engine.Cancel;
            Engine.Chunk (Sample.xs 1000)] 10000 0).
  - reflexivity.
  - vm_compute. reflexivity.
  - vm_compute. reflexivity.
Defined.

(** ** Pausing *)

Section Pausing.

Import Engine.

Variable episode : Z.
Variable total_bytes : Z.
Variables temp_file output_file : Path.
Variable log : list Request.
Variable base : gmap Path (list Byte.byte).
Variable d0 : VideoDownloader.

Abbreviation run := (stream episode total_bytes temp_file output_file log).
Abbreviation holds := (carries temp_file base d0).

Lemma stream_control a rest t :
  run (Control a :: rest) None t = run rest None (steer a t).
Proof. reflexivity. Qed.

Lemma stream_chunk_held c rest t :
  held (dl t) = true → run (Chunk c :: rest) None t = run rest (Some c) t.
Proof. intros H. simpl. by rewrite H. Qed.

Lemma stream_wake a c rest t :
  held (control a (dl t)) = false →
  run (Control a :: rest) (Some c) t
  = match body episode total_bytes temp_file log c (steer a t) with
    | Continue t' => run rest None t'
    | Stop r => r
    end.
Proof. intros H. simpl. by rewrite H. Qed.

Lemma steer_pause_held t x : holds x t → held (dl (steer Pause t)) = true.
Proof. intros ([Hp Hc] & _). unfold held. simpl. by rewrite Hc. Qed.

(** A pause holds the next chunk; the resume writes it. *)
Lemma stream_pause_resume c rest t x :
  holds x t →
  ∃ t', run (Control Pause :: Chunk c :: Control Resume :: rest) None t
        = run rest None t'
        ∧ holds (x ++ c) t'.
Proof.
  intros Ht. pose proof Ht as ([Hp Hc] & Hdir & Hk & Ha).
  rewrite stream_control, stream_chunk_held by (by eapply steer_pause_held).
  rewrite stream_wake by (unfold held; simpl; done).
  assert (holds x (steer Resume (steer Pause t))) as H2 by (by repeat split).
  destruct (body_holds episode total_bytes temp_file log base d0 c _ x H2)
    as (t' & -> & Ht').
  by exists t'.
Qed.

(** A cancel wakes the paused loop, which drops the chunk it held. *)
Lemma stream_pause_cancel c rest t x :
  holds x t →
  let r := run (Control Pause :: Chunk c :: Control Cancel :: rest) None t in
  ended r = Finished (Returned false)
  ∧ artifacts (disk r) = <[temp_file := x]> base.
Proof.
  intros Ht. pose proof Ht as ([Hp Hc] & Hdir & Hk & Ha). cbv zeta.
  rewrite stream_control, stream_chunk_held by (by eapply steer_pause_held).
  rewrite stream_wake by (unfold held; simpl; done).
  unfold body. simpl. rewrite save_and_return_artifacts. split; [|done].
  match goal with
  | |- context [save_and_return log false ?d ?k] =>
      destruct (save_and_return_ended log false d k) as [->|[_ Hn]]
  end; [done|]. by destruct Hn.
Qed.

(** Without a further action of the driver the paused loop sleeps on. *)
Lemma stream_pause_waits c t x :
  holds x t →
  let r := run [Control Pause; Chunk c] None t in
  ended r = Waiting ∧ artifacts (disk r) = <[temp_file := x]> base.
Proof.
  intros Ht. pose proof Ht as ([Hp Hc] & Hdir & Hk & Ha). cbv zeta.
  by rewrite stream_control, stream_chunk_held by (by eapply steer_pause_held).
Qed.

End Pausing.

Section CallPausing.

Import Engine.

Implicit Types (d : VideoDownloader) (k : Disk) (server : Request → Reply)
  (episode_info : EpisodeInfo).




End CallPausing.




(** ** The control plane *)

Section ControlPlane.

Import Engine.

(** X12. The two signals are independent and cancel is sticky: pausing
    and resuming never change the cancel flag, cancelling never changes the
    pause flag, and once cancelled an engine stays cancelled through any
    sequence of pause, resume and cancel; only [reset] clears it, together
    with the pause flag. *)
Theorem cancel_is_sticky (d : VideoDownloader) (acts : list action) :
  is_cancelled (pause d) = is_cancelled d
  ∧ is_cancelled (resume d) = is_cancelled d
  ∧ is_paused (cancel d) = is_paused d
  ∧ is_paused (resume (pause d)) = false
  ∧ (Reset ∉ acts → is_cancelled d = true →
     is_cancelled (drive acts d) = true)
  ∧ is_paused (drive (acts ++ [Reset]) d) = false
  ∧ is_cancelled (drive (acts ++ [Reset]) d) = false.
Proof.
  repeat split; try done.
  - revert d. induction acts as [|a acts IH]; intros d Hr Hc; [done|].
    simpl. apply IH.
    + intros H. apply Hr. by right.
    + destruct a; try done. destruct Hr. by left.
  - unfold drive. by rewrite foldl_app.
  - unfold drive. by rewrite foldl_app.
Qed.

End ControlPlane.

(** Witness: cancelled, then paused and resumed. *)
Lemma cancel_is_sticky_witness :
  Engine.is_cancelled
    (drive [Engine.Pause; Engine.Resume; Engine.Pause]
       (Engine.cancel Sample.engine))
  = true.
Proof.
  refine (proj1 (proj2 (proj2 (proj2 (proj2
    (cancel_is_sticky (Engine.cancel Sample.engine)
       [Engine.Pause; Engine.Resume; Engine.Pause]))))) _ _).
  - intros H. repeat (apply elem_of_cons in H as [H|H]; [discriminate|]).
    by apply elem_of_nil in H.
  - reflexivity.
Defined.

(** ** Batches *)

Section Batches.

Import Engine.

Implicit Types (d : VideoDownloader) (k : Disk) (server : Request → Reply)
  (episode_info : EpisodeInfo) (episodes : list EpisodeInfo).

Lemma download_episode_requests_length d k server episode_info :
  length (requests (download_episode d k server episode_info)) = 1%nat.
Proof.
  rewrite download_episode_unfold. cbv zeta.
  destruct (server _) as [|status hdrs evs].
  { by rewrite save_and_return_requests. }
  destruct (classify _ _ _) as [total m| |]; [|done|done].
  destruct (_save_state _ _) as [k1|]; [|done].
  destruct (open_part _ _ _) as [k2|]; [|done].
  by rewrite stream_requests.
Qed.

Lemma download_all_from_counts server episodes d k s0 f0 log s f :
  batch_ended (download_all_from d k server episodes s0 f0 log)
    = Finished (Returned (s, f)) →
  (s0 ≤ s ∧ f0 ≤ f ∧ (s - s0) + (f - f0) ≤ Z.of_nat (length episodes))%Z.
Proof.
  revert d k s0 f0 log.
  induction episodes as [|e episodes IH]; intros d k s0 f0 log; simpl.
  { intros [= <- <-]. lia. }
  destruct (_cancelled d). { simpl. intros [= <- <-]. lia. }
  destruct (match state d with Some _ => _ | None => _ end).
  { intros H. apply IH in H. lia. }
  destruct (ended (download_episode d k server e)) as [[[|]|]|]; try done.
  - intros H. apply IH in H. lia.
  - intros H. apply IH in H.
    destruct (_cancelled (downloader _)); lia.
Qed.

Lemma download_all_from_requests server episodes d k s0 f0 log :
  (length (batch_requests (download_all_from d k server episodes s0 f0 log))
   ≤ length log + length episodes)%nat.
Proof.
  revert d k s0 f0 log.
  induction episodes as [|e episodes IH]; intros d k s0 f0 log; simpl; [lia|].
  destruct (_cancelled d); [simpl; lia|].
  destruct (match state d with Some _ => _ | None => _ end).
  { specialize (IH d k (s0 + 1)%Z f0 log). lia. }
  pose proof (download_episode_requests_length d k server e) as H1.
  destruct (ended (download_episode d k server e)) as [[[|]|]|]; simpl.
  - match goal with
    | |- context [download_all_from ?d' ?k' server episodes ?a ?b ?l] =>
        specialize (IH d' k' a b l)
    end. rewrite length_app in IH. lia.
  - match goal with
    | |- context [download_all_from ?d' ?k' server episodes ?a ?b ?l] =>
        specialize (IH d' k' a b l)
    end. rewrite length_app in IH. lia.
  - rewrite length_app. lia.
  - rewrite length_app. lia.
Qed.

(** X13. Whatever the server does, [download_all] counts no episode twice
    and asks for none twice: the two counters are not negative, their sum
    is at most the number of episodes, and so is the number of requests
    sent. *)
Theorem batch_is_bounded d k server episodes :
  (length (batch_requests (download_all d k server episodes))
   ≤ length episodes)%nat
  ∧ ∀ s f,
      batch_ended (download_all d k server episodes)
        = Finished (Returned (s, f)) →
      (0 ≤ s ∧ 0 ≤ f ∧ s + f ≤ Z.of_nat (length episodes))%Z.
Proof.
  unfold download_all. split.
  - apply (download_all_from_requests server episodes d k 0%Z 0%Z []).
  - intros s f H. apply download_all_from_counts in H. lia.
Qed.

End Batches.

(** Witness: two episodes, one of them answered with 404. *)
Lemma batch_is_bounded_witness :
  (0 ≤ 0 ∧ 0 ≤ 2 ∧ 0 + 2 ≤ Z.of_nat (length [Sample.episode1; Sample.episode2]))%Z.
Proof.
  refine (proj2
    (batch_is_bounded Sample.engine Sample.disk Sample.not_found
       [Sample.episode1; Sample.episode2]) 0%Z 2%Z _).
  vm_compute. reflexivity.
Defined.

Section Unattended.

Import Engine.

Variable episode : Z.
Variable total_bytes : Z.
Variables temp_file output_file : Path.
Variable log : list Request.

Abbreviation run := (stream episode total_bytes temp_file output_file log).

Lemma body_cancelled c t :
  match body episode total_bytes temp_file log c t with
  | Continue t' => _cancelled (dl t') = _cancelled (dl t)
  | Stop r => _cancelled (downloader r) = _cancelled (dl t)
  end.
Proof.
  unfold body. destruct (_cancelled (dl t)) eqn:Ec.
  { by rewrite save_and_return_downloader. }
  destruct c; [done|]. destruct (write _ _ _); [|done].
  destruct (state _); [|done]. destruct (_ <=? _)%Z; [|done].
  by destruct (_save_state _ _).
Qed.

(** Without an action of the driver the cancel flag stays as it is. *)
Lemma stream_undisturbed evs pending t :
  undisturbed evs →
  _cancelled (downloader (run evs pending t)) = _cancelled (dl t).
Proof.
  intros Hevs. revert pending t.
  induction Hevs as [|ev rest Hev Hrest IH]; intros pending t; simpl.
  - destruct pending; [done|]. unfold commit.
    destruct (rename _ _ _); [|done].
    destruct (state _); [|done]. by rewrite save_and_return_downloader.
  - destruct pending as [c|], ev as [a|c'|]; try done;
      try (by destruct (Hev a)).
    + destruct (held _); [apply IH|].
      pose proof (body_cancelled c' t) as H.
      destruct (body _ _ _ _ c' t); [|done]. by rewrite IH.
    + by rewrite save_and_return_downloader.
Qed.

End Unattended.

Section UnattendedBatch.

Import Engine.

Implicit Types (d : VideoDownloader) (k : Disk) (server : Request → Reply)
  (episode_info : EpisodeInfo) (episodes : list EpisodeInfo).

Lemma download_episode_undisturbed d k server episode_info :
  unattended server →
  _cancelled (downloader (download_episode d k server episode_info))
  = _cancelled d.
Proof.
  intros Hserver. rewrite download_episode_unfold. cbv zeta.
  set (d1 := match state d with Some _ => _ | None => _ end).
  assert (_cancelled d1 = _cancelled d) as H1.
  { unfold d1. by destruct (state d). }
  destruct (server _) as [|status hdrs evs] eqn:Es.
  { by rewrite save_and_return_downloader. }
  destruct (classify _ _ _) as [total m| |]; [|done|done].
  set (d2 := match state d1 with Some _ => _ | None => _ end).
  assert (_cancelled d2 = _cancelled d) as H2.
  { unfold d2. by destruct (state d1). }
  destruct (_save_state _ _) as [k1|]; [|done].
  destruct (open_part _ _ _) as [k2|]; [|done].
  rewrite stream_undisturbed; [done|]. by eapply Hserver.
Qed.

Lemma download_all_from_exact server episodes d k s0 f0 log s f :
  unattended server → _cancelled d = false →
  batch_ended (download_all_from d k server episodes s0 f0 log)
    = Finished (Returned (s, f)) →
  ((s - s0) + (f - f0) = Z.of_nat (length episodes))%Z.
Proof.
  intros Hserver. revert d k s0 f0 log.
  induction episodes as [|e episodes IH]; intros d k s0 f0 log Hc; simpl.
  { intros [= <- <-]. lia. }
  rewrite Hc.
  destruct (match state d with Some _ => _ | None => _ end).
  { intros H. apply IH in H; [lia|done]. }
  pose proof (download_episode_undisturbed d k server e Hserver) as Hc'.
  rewrite Hc in Hc'.
  destruct (ended (download_episode d k server e)) as [[[|]|]|]; try done.
  - intros H. apply IH in H; [lia|done].
  - rewrite Hc'. intros H. apply IH in H; [lia|done].
Qed.

(** X14. One failed episode does not abort a batch. When the driver never
    acts during the transfers and the engine is not cancelled, a batch that
    returns has gone through every episode and counted each exactly once,
    as successful or as failed. *)
Theorem batch_counts_every_episode d k server episodes (s f : Z) :
  unattended server → _cancelled d = false →
  batch_ended (download_all d k server episodes) = Finished (Returned (s, f)) →
  (s + f)%Z = Z.of_nat (length episodes).
Proof.
  intros Hserver Hc H. unfold download_all in H.
  apply download_all_from_exact in H; [lia|done|done].
Qed.

End UnattendedBatch.

(** Witness: a batch of two episodes that are both answered with 404. *)
Lemma batch_counts_every_episode_witness :
  (0 + 2)%Z = Z.of_nat (length [Sample.episode1; Sample.episode2]).
Proof.
  apply (batch_counts_every_episode Sample.engine Sample.disk
           Sample.not_found [Sample.episode1; Sample.episode2] 0 2).
  - intros req status hdrs evs [= _ _ <-]. constructor.
  - reflexivity.
  - vm_compute. reflexivity.
Defined.

(** ** Opening and clearing a session *)

Section Sessions.

Import Engine.

Implicit Types (d : VideoDownloader) (k : Disk).

Lemma filter_none_completed (l : list Z) : filter (λ ep, ep ∉ ([] : list Z)) l = l.
Proof.
  induction l as [|x l IH]; [done|].
  rewrite filter_cons_True by set_solver. by rewrite IH.
Qed.

(** X15. [init_state] on a healthy disk opens a fresh session whatever the
    engine held before: the selection is the given one in ascending order
    (a sorted permutation, duplicates kept), nothing is completed and
    nothing is current, every selected episode remains to be downloaded,
    the artifacts are untouched, and the snapshot it writes loads back as
    the new state. *)
Theorem init_state_opens_session d k (series_info : Session.SeriesInfo)
    (selected_episodes : list Z) :
  healthy k →
  let d' := (Session.init_state d k series_info selected_episodes).1 in
  ∃ s k',
    (Session.init_state d k series_info selected_episodes).2 = Returned k'
    ∧ state d' = Some s
    ∧ StronglySorted Z.le (Store.selected_episodes s)
    ∧ Store.selected_episodes s ≡ₚ selected_episodes
    ∧ Store.completed_episodes s = []
    ∧ idle d'
    ∧ get_remaining_episodes d' = Store.selected_episodes s
    ∧ artifacts k' = artifacts k
    ∧ Store.load (documents k') (state_file d')
      = Returned (Some (Store.reflect s)).
Proof.
  intros Hk. unfold Session.init_state. cbv zeta. simpl.
  set (s := {| Store.series_id := _ |}).
  destruct (save_state_healthy (set_state d (Some s)) k Hk)
    as (k' & E & Ea & _ & Hdoc).
  exists s, k'. split; [done|]. split; [done|].
  split. { apply StronglySorted_merge_sort; apply _. }
  split. { apply merge_sort_Permutation. }
  split; [done|]. split. { by exists s. }
  split. { unfold get_remaining_episodes. simpl. apply filter_none_completed. }
  split; [done|].
  unfold Store.load. rewrite (load_body_asdict s); [done|].
  by apply Hdoc.
Qed.

(** X16. [clear_state] forgets the session and nothing else: when the
    snapshot can be removed (or there is none), the engine has no state,
    nothing remains to be downloaded, loading the state file finds no
    snapshot, and every artifact, partial ones included, is still there;
    when the removal is refused, the exception leaves engine and disk as
    they were. *)
Theorem clear_state_forgets_session d k :
  (∃ d' k',
     Session.clear_state true d k = Returned (d', k')
     ∧ state d' = None
     ∧ get_remaining_episodes d' = []
     ∧ Store.load (documents k') (state_file d') = Returned None
     ∧ artifacts k' = artifacts k)
  ∧ (is_Some (documents k !! state_file d) →
     Session.clear_state false d k = Raised OSError).
Proof.
  unfold Session.clear_state. split.
  - destruct (documents k !! state_file d) as [f|] eqn:E.
    + eexists _, _. split; [done|]. simpl. repeat split; try done.
      unfold Store.load, Store.load_body. unfold state_file. simpl.
      by rewrite lookup_delete_eq.
    + eexists _, _. split; [done|]. simpl. repeat split; try done.
      unfold Store.load, Store.load_body. unfold state_file in *. simpl.
      by rewrite E.
  - by intros [f ->].
Qed.

End Sessions.

(** Witness: a session on the episodes 3, 1 and 2, given in that order. *)
Lemma init_state_opens_session_witness :
  ∃ s k',
    (Session.init_state Sample.bare_engine Sample.disk Sample.series
       [3; 1; 2]%Z).2 = Returned k'
    ∧ Engine.state
        (Session.init_state Sample.bare_engine Sample.disk Sample.series
           [3; 1; 2]%Z).1 = Some s
    ∧ StronglySorted Z.le (Store.selected_episodes s)
    ∧ Store.selected_episodes s ≡ₚ [3; 1; 2]%Z
    ∧ Store.completed_episodes s = []
    ∧ idle (Session.init_state Sample.bare_engine Sample.disk Sample.series
              [3; 1; 2]%Z).1
    ∧ Engine.get_remaining_episodes
        (Session.init_state Sample.bare_engine Sample.disk Sample.series
           [3; 1; 2]%Z).1
      = Store.selected_episodes s
    ∧ Engine.artifacts k' = Engine.artifacts Sample.disk
    ∧ Store.load (Engine.documents k')
        (Engine.state_file
           (Session.init_state Sample.bare_engine Sample.disk Sample.series
              [3; 1; 2]%Z).1)
      = Returned (Some (Store.reflect s)).
Proof.
  apply (init_state_opens_session Sample.bare_engine Sample.disk
           Sample.series [3; 1; 2]%Z).
  reflexivity.
Defined.

(** Witness: the removal of an existing snapshot is refused. *)
Lemma clear_state_forgets_session_witness :
  Session.clear_state false Sample.engine
    (Engine.set_documents Sample.disk
       {[ Engine.state_file Sample.engine := Malformed ]})
  = Raised OSError.
Proof.
  apply (proj2 (clear_state_forgets_session Sample.engine
                  (Engine.set_documents Sample.disk
                     {[ Engine.state_file Sample.engine := Malformed ]}))).
  vm_compute. by eexists.
Defined.

(** ** What remains after a call *)

Set Warnings "-clear-no-such-hyp".

Section Remaining.

Import Engine.

Variable episode : Z.
Variable total_bytes : Z.
Variables temp_file output_file : Path.
Variable log : list Request.
Variable s0 : Store.DownloadState.

Abbreviation run := (stream episode total_bytes temp_file output_file log).

(** The session state is [s0] up to what is current. *)
Let frozen (t : Transfer) : Prop :=
  ∃ s, state (dl t) = Some s ∧ finished episode s = finished episode s0.

Lemma stream_true_state evs pending t :
  frozen t →
  ended (run evs pending t) = Finished (Returned true) →
  state (downloader (run evs pending t)) = Some (finished episode s0).
Proof.
  apply (stream_invariant episode total_bytes temp_file output_file log
           frozen
           (λ r, ended r = Finished (Returned true) →
                 state (downloader r) = Some (finished episode s0))).
  - intros a t' H. by destruct a.
  - intros c t' t'' (s & Hs & Hf) E. unfold body in E.
    destruct (_cancelled _); [done|].
    destruct c; [injection E as <-; by exists s|].
    destruct (write _ _ _); [|done]. rewrite Hs in E.
    destruct (_ <=? _)%Z; [|injection E as <-; by exists s].
    destruct (_save_state _ _); [|done]. injection E as <-.
    eexists. split; [done|]. exact Hf.
  - intros c t' r _ E. unfold body in E. destruct (_cancelled _).
    { simplify_eq.
      destruct (save_and_return_ended log false (dl t') (dk t'))
        as [->|[-> _]]; done. }
    destruct c; [done|]. destruct (write _ _ _); [|by simplify_eq].
    destruct (state _); [|done]. destruct (_ <=? _)%Z; [|done].
    destruct (_save_state _ _); by simplify_eq.
  - intros t' (s & Hs & Hf). unfold commit.
    destruct (rename _ _ _); [|done]. rewrite Hs.
    rewrite save_and_return_downloader. intros _. simpl. by rewrite <- Hf.
  - intros t' _.
    destruct (save_and_return_ended log false (dl t') (dk t'))
      as [->|[-> _]]; done.
  - by intros t' _.
Qed.

End Remaining.

Section CallRemaining.

Import Engine.

Implicit Types (d : VideoDownloader) (k : Disk) (server : Request → Reply)
  (episode_info : EpisodeInfo) (s : Store.DownloadState).

Lemma filter_remaining (ep : Z) (done_ l : list Z) :
  filter (λ x, x ∉ (if bool_decide (ep ∈ done_) then done_ else done_ ++ [ep])) l
  = filter (λ x, x ≠ ep) (filter (λ x, x ∉ done_) l).
Proof.
  set (done' := if bool_decide (ep ∈ done_) then done_ else done_ ++ [ep]).
  assert (∀ x, x ∈ done' ↔ x ∈ done_ ∨ x = ep) as Hdone.
  { intros x. unfold done'. case_bool_decide as Hep.
    - split; [by left|]. by intros [?| ->].
    - by rewrite elem_of_app, list_elem_of_singleton. }
  clearbody done'.
  induction l as [|x l IH]; [done|].
  rewrite (filter_cons (λ y, y ∉ done')), (filter_cons (λ y, y ∉ done_)).
  destruct (decide (x ∉ done')) as [H2|H2], (decide (x ∉ done_)) as [H1|H1].
  - rewrite filter_cons. destruct (decide (x ≠ ep)) as [H3|H3].
    + by rewrite IH.
    + destruct H2. apply Hdone. right. by destruct (decide (x = ep)).
  - destruct H2. apply Hdone. left. by destruct (decide (x ∈ done_)).
  - rewrite filter_cons. destruct (decide (x ≠ ep)) as [H3|H3]; [|done].
    destruct H2. intros [H|H]%Hdone; [by apply H1 | by apply H3].
  - done.
Qed.

Lemma session_after_call d k server episode_info s :
  state d = Some s →
  let r := download_episode d k server episode_info in
  ended r = Finished (Returned false) →
  ∃ s', state (downloader r) = Some s'
        ∧ Store.selected_episodes s' = Store.selected_episodes s
        ∧ Store.completed_episodes s' = Store.completed_episodes s.
Proof.
  intros Hs r He.
  assert (∃ s', state (downloader r) = Some s' ∧ same_series s s'
                ∧ ((Store.completed_episodes s' = Store.completed_episodes s)
                   ∨ ((episode_number episode_info ∉ Store.completed_episodes s)
                      ∧ Store.completed_episodes s'
                        = Store.completed_episodes s
                          ++ [episode_number episode_info]
                      ∧ ended r ≠ Finished (Returned false)))) as H.
  { subst r. rewrite download_episode_unfold. cbv zeta. rewrite Hs.
    assert (same_series s s) as Hrefl by (by repeat split).
    destruct (server _) as [|status hdrs evs].
    { eexists. rewrite save_and_return_downloader. simpl. auto. }
    destruct (classify _ _ _) as [total m| |];
      [|eexists; simpl; by auto|eexists; simpl; by auto].
    simpl (state (set_state _ _)).
    destruct (_save_state _ _) as [k1|]; [|eexists; simpl; by auto].
    destruct (open_part _ _ _) as [k2|]; [|eexists; simpl; by auto].
    apply stream_session_grows. eexists. simpl. auto. }
  destruct H as (s' & Hst & (_ & _ & _ & _ & Hsel) & [Hdone|(_ & _ & Hne)]).
  - by exists s'.
  - by destruct Hne.
Qed.

(** X17. A call removes at most its own episode from what remains to be
    downloaded: after a call that returns [True] the remaining episodes are
    the former ones without the episode of the call, in the same order,
    and after a call that returns [False] they are the former ones. *)
Theorem remaining_after_call d k server episode_info s :
  state d = Some s →
  let r := download_episode d k server episode_info in
  (ended r = Finished (Returned true) →
   get_remaining_episodes (downloader r)
   = filter (λ x, x ≠ episode_number episode_info) (get_remaining_episodes d))
  ∧ (ended r = Finished (Returned false) →
     get_remaining_episodes (downloader r) = get_remaining_episodes d).
Proof.
  intros Hs r. unfold get_remaining_episodes at 2 4. rewrite Hs. split.
  - intros He.
    assert (state (downloader r)
            = Some (finished (episode_number episode_info) s)) as Hst.
    { revert He. subst r. rewrite download_episode_unfold. cbv zeta.
      rewrite Hs.
      destruct (server _) as [|status hdrs evs].
      { match goal with
        | |- context [save_and_return ?l false ?d ?k] =>
            destruct (save_and_return_ended l false d k) as [->|[-> _]]
        end; done. }
      destruct (classify _ _ _) as [total m| |]; [|done|done].
      simpl (state (set_state _ _)).
      destruct (_save_state _ _) as [k1|]; [|done].
      destruct (open_part _ _ _) as [k2|]; [|done].
      apply stream_true_state. by eexists. }
    unfold get_remaining_episodes. rewrite Hst. simpl.
    apply filter_remaining.
  - intros He.
    destruct (session_after_call d k server episode_info s Hs He)
      as (s' & Hst & Hsel & Hdone).
    unfold get_remaining_episodes. fold r in Hst. rewrite Hst.
    by rewrite Hsel, Hdone.
Qed.

End CallRemaining.

(** Witness: of the episodes 1, 2 and 3, the episodes 2 and 3 remain after
    episode 1 has been downloaded. *)
Lemma remaining_after_call_witness :
  Engine.get_remaining_episodes
    (Engine.downloader
       (Engine.download_episode Sample.engine Sample.disk
          (Sample.full_content "1000" [Engine.Chunk (Sample.xs 1000)])
          Sample.episode1))
  = [2; 3]%Z.
Proof.
  refine (eq_trans
    (proj1 (remaining_after_call Sample.engine Sample.disk
              (Sample.full_content "1000" [Engine.Chunk (Sample.xs 1000)])
              Sample.episode1 Sample.session eq_refl) _) _).
  - vm_compute. reflexivity.
  - vm_compute. reflexivity.
Defined.

(** ** More on the selection of episodes *)

Section Groups.

Local Open Scope string_scope.

Lemma lower_char_comma (c : ascii) :
  Ascii.eqb (Py.lower_char c) "," = Ascii.eqb c ",".
Proof. by destruct c as [[] [] [] [] [] [] [] []]. Qed.

Lemma contains_comma_lower (s : string) :
  Py.contains "," (Py.lower s) = Py.contains "," s.
Proof.
  induction s as [|c s IH]; simpl; [done|].
  by rewrite lower_char_comma, IH.
Qed.

(** A selection with a comma is never the word "all". *)
Lemma comma_is_not_all (s : string) :
  Py.contains "," s = true → String.eqb (Py.lower s) "all" = false.
Proof.
  intros H. destruct (String.eqb_spec (Py.lower s) "all") as [E|]; [|done].
  rewrite <- contains_comma_lower, E in H. discriminate.
Qed.

Lemma split_nonempty (sep : ascii) (s : string) :
  ∃ w ws, Py.split sep s = w :: ws.
Proof.
  destruct s as [|c s]; simpl; [by eexists _, _|].
  destruct (Ascii.eqb c sep); [by eexists _, _|].
  destruct (Py.split sep s); by eexists _, _.
Qed.

(** Splitting distributes over a separator. *)
Lemma split_app (sep : ascii) (a b : string) :
  Py.split sep (a ++ String sep b) = (Py.split sep a ++ Py.split sep b)%list.
Proof.
  induction a as [|c a IH]; rewrite ?string_app_nil, ?string_app_cons; simpl.
  - by rewrite Ascii.eqb_refl.
  - destruct (Ascii.eqb c sep); [by rewrite IH|].
    rewrite IH. by destruct (split_nonempty sep a) as (w & ws & ->).
Qed.

Lemma parse_part_union (max_episode : Z) (s : gset Z) (part : string) :
  Cli.parse_part max_episode s part = s ∪ Cli.parse_part max_episode ∅ part.
Proof.
  unfold Cli.parse_part. destruct (Py.contains _ _).
  - destruct (Cli.match_range _) as [[a b]|]; set_solver.
  - destruct (Py.int_of_str _); [|set_solver].
    destruct (_ && _)%Z; set_solver.
Qed.

Lemma foldl_parse_part_union (max_episode : Z) (parts : list string) (s : gset Z) :
  foldl (Cli.parse_part max_episode) s parts
  = s ∪ foldl (Cli.parse_part max_episode) ∅ parts.
Proof.
  revert s. induction parts as [|p parts IH]; intros s; simpl; [set_solver|].
  rewrite (IH (Cli.parse_part _ s p)), (IH (Cli.parse_part _ ∅ p)).
  rewrite (parse_part_union _ s p). set_solver.
Qed.

Lemma selection_app (max_episode : Z) (a b : string) :
  selection max_episode (a ++ String "," b)
  = selection max_episode a ∪ selection max_episode b.
Proof.
  unfold selection. rewrite split_app, foldl_app.
  apply foldl_parse_part_union.
Qed.

Lemma contains_comma_app (a b : string) :
  Py.contains "," (a ++ String "," b) = true.
Proof. rewrite contains_app. simpl. apply orb_true_r. Qed.

(** X18. The order of the comma-separated groups does not matter, and
    neither do repetitions: a selection made of two parts joined by a comma
    is the ascending list of the union of what each part selects, so that
    swapping the parts gives the same list. *)
Theorem groups_commute (a b : string) (max_episode : Z) :
  Cli.parse_episode_range (a ++ "," ++ b) max_episode
  = Cli.sorted (selection max_episode a ∪ selection max_episode b)
  ∧ Cli.parse_episode_range (a ++ "," ++ b) max_episode
    = Cli.parse_episode_range (b ++ "," ++ a) max_episode.
Proof.
  assert (∀ x y, Cli.parse_episode_range (x ++ "," ++ y) max_episode
                 = Cli.sorted (selection max_episode x ∪ selection max_episode y))
    as H.
  { intros x y. unfold Cli.parse_episode_range.
    change (x ++ "," ++ y) with (x ++ String "," y).
    rewrite comma_is_not_all by apply contains_comma_app.
    fold (selection max_episode (x ++ String "," y)).
    by rewrite selection_app. }
  split; [apply H|]. rewrite !H. f_equal. set_solver.
Qed.

End Groups.

(** ** Numbers in a selection *)

Section Numerals.

Local Open Scope string_scope.

Ltac digit_value :=
  repeat match goal with
  | |- context [Py.digit_val ?c] =>
      let v := eval vm_compute in (Py.digit_val c) in
      change (Py.digit_val c) with v
  end.

Lemma digits_val_acc (u : Decimal.uint) (acc : positive) :
  Py.digits_val (Z.pos acc) (NilEmpty.string_of_uint u)
  = Z.pos (Pos.of_uint_acc u acc).
Proof.
  revert acc. induction u; intros acc; simpl; [done|..];
    rewrite <- IHu; f_equal; digit_value; lia.
Qed.

Lemma digits_val_uint (u : Decimal.uint) :
  Py.digits_val 0 (NilEmpty.string_of_uint u) = Z.of_N (Pos.of_uint u).
Proof.
  induction u; simpl; [done|exact IHu|..];
    digit_value; simpl; apply digits_val_acc.
Qed.

(** [int(str(n)) == n] on the digits of a natural number. *)
Lemma digits_val_digits (n : N) : Py.digits_val 0 (Py.digits n) = Z.of_N n.
Proof.
  unfold Py.digits, NilZero.string_of_uint.
  rewrite <- (DecimalN.Unsigned.of_to n) at 2. unfold N.of_uint.
  destruct (N.to_uint n) eqn:E; by rewrite <- digits_val_uint.
Qed.

Lemma uint_all_digits (u : Decimal.uint) :
  all_chars Py.isdigit (NilEmpty.string_of_uint u) = true.
Proof. induction u; simpl; auto. Qed.

Lemma digits_shape (n : N) :
  ∃ c r, Py.digits n = String c r
         ∧ Py.isdigit c = true ∧ all_chars Py.isdigit r = true.
Proof.
  unfold Py.digits, NilZero.string_of_uint.
  destruct (N.to_uint n) as [|u|u|u|u|u|u|u|u|u|u]; simpl;
    eexists _, _; (split; [reflexivity|]); (split; [reflexivity|]);
    first [reflexivity | apply uint_all_digits].
Qed.

Lemma digits_all_digits (n : N) : all_chars Py.isdigit (Py.digits n) = true.
Proof. destruct (digits_shape n) as (c & r & -> & Hc & Hr). simpl. by rewrite Hc. Qed.

Lemma all_chars_app (f : ascii → bool) (a b : string) :
  all_chars f (a ++ b) = all_chars f a && all_chars f b.
Proof.
  induction a as [|c a IH]; rewrite ?string_app_nil, ?string_app_cons; simpl; [done|].
  by rewrite IH, andb_assoc.
Qed.

Lemma all_chars_impl (f g : ascii → bool) (s : string) :
  (∀ c, f c = true → g c = true) → all_chars f s = true → all_chars g s = true.
Proof.
  intros Hfg. induction s as [|c s IH]; simpl; [done|].
  intros [Hc Hs]%andb_true_iff. by rewrite (Hfg c Hc), IH.
Qed.

Lemma string_app_nil_r (s : string) : s ++ "" = s.
Proof.
  induction s as [|c s IH]; rewrite ?string_app_nil, ?string_app_cons; [done|].
  by rewrite IH.
Qed.

(** A run of digits is read up to the first character that is none. *)
Lemma span_digits_app (s t : string) :
  all_chars Py.isdigit s = true →
  (t = "" ∨ ∃ c r, t = String c r ∧ Py.isdigit c = false) →
  Py.span_digits (s ++ t) = (s, t).
Proof.
  intros Hs Ht.
  induction s as [|c s IH]; rewrite ?string_app_nil, ?string_app_cons; simpl.
  - destruct Ht as [->|(c & r & -> & Hc)]; [done|]. simpl. by rewrite Hc.
  - simpl in Hs. apply andb_true_iff in Hs as [Hc Hs].
    by rewrite Hc, (IH Hs).
Qed.

Lemma digit_is_no_space (c : ascii) :
  Py.isdigit c = true → negb (Py.isspace c) = true.
Proof. by destruct c as [[] [] [] [] [] [] [] []]. Qed.

Lemma lstrip_id (s : string) :
  all_chars (λ c, negb (Py.isspace c)) s = true → Py.lstrip s = s.
Proof.
  destruct s as [|c s]; simpl; [done|].
  intros [Hc _]%andb_true_iff. by destruct (Py.isspace c).
Qed.

Lemma rstrip_id (s : string) :
  all_chars (λ c, negb (Py.isspace c)) s = true → Py.rstrip s = s.
Proof.
  induction s as [|c s IH]; simpl; [done|].
  intros [Hc Hs]%andb_true_iff. rewrite (IH Hs).
  destruct s; [|done]. by destruct (Py.isspace c).
Qed.

(** Text without white space is left alone by [strip]. *)
Lemma strip_id (s : string) :
  all_chars (λ c, negb (Py.isspace c)) s = true → Py.strip s = s.
Proof. intros H. unfold Py.strip. by rewrite (lstrip_id s H), rstrip_id. Qed.

Lemma str_int_nonneg (n : Z) : (0 ≤ n)%Z → Py.str_int n = Py.digits (Z.to_N n).
Proof.
  intros Hn. unfold Py.str_int, Py.format_0d, Py.lpad0.
  destruct (Z.ltb_spec n 0); [lia|]. simpl.
  rewrite string_app_nil. f_equal. lia.
Qed.

Lemma str_int_neg (n : Z) :
  (n < 0)%Z → Py.str_int n = String "-" (Py.digits (Z.abs_N n)).
Proof.
  intros Hn. unfold Py.str_int, Py.format_0d, Py.lpad0.
  destruct (Z.ltb_spec n 0); [|lia]. simpl. by rewrite string_app_nil.
Qed.

Lemma int_body_digits (s : string) (acc : Z) :
  all_chars Py.isdigit s = true →
  Py.int_body true acc s = Some (Py.digits_val acc s).
Proof.
  revert acc. induction s as [|c s IH]; intros acc; simpl; [done|].
  intros [Hc Hs]%andb_true_iff. rewrite Hc. by apply IH.
Qed.

Lemma int_of_str_head (c : ascii) (r : string) :
  Py.isdigit c = true →
  match String c r with
  | String "+" r' => Py.int_body false 0 r'
  | String "-" r' => Z.opp <$> Py.int_body false 0 r'
  | t => Py.int_body false 0 t
  end = Py.int_body false 0 (String c r).
Proof. by destruct c as [[] [] [] [] [] [] [] []]. Qed.

(** [int(str(n)) == n] for a natural number. *)
Lemma int_of_str_digits (n : N) : Py.int_of_str (Py.digits n) = Some (Z.of_N n).
Proof.
  unfold Py.int_of_str. rewrite strip_id.
  2:{ eapply all_chars_impl; [apply digit_is_no_space|apply digits_all_digits]. }
  rewrite <- digits_val_digits.
  destruct (digits_shape n) as (c & r & -> & Hc & Hr).
  rewrite (int_of_str_head c r Hc). simpl. rewrite Hc. by apply int_body_digits.
Qed.

End Numerals.

(** ** A selection written out *)

Section Written.

Local Open Scope string_scope.

Lemma ascending_nodup (l : list Z) : StronglySorted Z.lt l → NoDup l.
Proof.
  induction 1 as [|x l Hs IH Hx]; constructor; [|done].
  intros Hin. rewrite Forall_forall in Hx. specialize (Hx x Hin). lia.
Qed.

(** Sorting the set of an ascending list gives the list back. *)
Lemma sorted_of_ascending (l : list Z) :
  StronglySorted Z.lt l → Cli.sorted (list_to_set l) = l.
Proof.
  intros Hl. apply (StronglySorted_unique_strong Z.lt).
  - intros; lia.
  - apply sorted_ascending.
  - done.
  - unfold Cli.sorted. rewrite merge_sort_Permutation.
    apply elements_list_to_set, ascending_nodup, Hl.
Qed.

Lemma split_single (sep : ascii) (s : string) :
  Py.contains sep s = false → Py.split sep s = [s].
Proof.
  induction s as [|c s IH]; simpl; [done|].
  intros [Hc Hs]%orb_false_iff. by rewrite Hc, (IH Hs).
Qed.

Lemma contains_none (f : ascii → bool) (c : ascii) (s : string) :
  f c = false → all_chars f s = true → Py.contains c s = false.
Proof.
  intros Hc. induction s as [|x s IH]; simpl; [done|].
  intros [Hx Hs]%andb_true_iff. rewrite (IH Hs), orb_false_r.
  destruct (Ascii.eqb_spec x c) as [->|]; [congruence|done].
Qed.

Lemma digits_no_space (n : N) :
  all_chars (λ c, negb (Py.isspace c)) (Py.digits n) = true.
Proof.
  eapply all_chars_impl; [apply digit_is_no_space|apply digits_all_digits].
Qed.

Lemma digits_no_char (c : ascii) (n : N) :
  Py.isdigit c = false → Py.contains c (Py.digits n) = false.
Proof. intros Hc. eapply contains_none; [exact Hc|apply digits_all_digits]. Qed.

Lemma lower_head (c : ascii) (r : string) :
  Py.lower_char c ≠ "a"%char → String.eqb (Py.lower (String c r)) "all" = false.
Proof.
  intros Hc. simpl. destruct (Ascii.eqb_spec (Py.lower_char c) "a"); [done|].
  by destruct (Py.lower_char c) as [[] [] [] [] [] [] [] []].
Qed.

Lemma digit_lower (c : ascii) : Py.isdigit c = true → Py.lower_char c ≠ "a"%char.
Proof. by destruct c as [[] [] [] [] [] [] [] []]. Qed.

(** What [a-b] reads as, for two numerals. *)
Lemma match_range_digits (a b : N) :
  Cli.match_range (Py.digits a ++ "-" ++ Py.digits b)
  = Some (Z.of_N a, Z.of_N b).
Proof.
  unfold Cli.match_range.
  rewrite (span_digits_app (Py.digits a) ("-" ++ Py.digits b));
    [|apply digits_all_digits|right; by eexists _, _].
  rewrite string_app_cons, string_app_nil.
  pose proof (span_digits_app (Py.digits b) "" (digits_all_digits b)
                (or_introl eq_refl)) as Hb.
  rewrite string_app_nil_r in Hb. rewrite Hb.
  rewrite !digits_val_digits.
  by destruct (digits_shape a) as (c & r & -> & _), (digits_shape b) as (c' & r' & -> & _).
Qed.

Lemma range_text_plain (a b : N) :
  all_chars (λ c, negb (Py.isspace c)) (Py.digits a ++ "-" ++ Py.digits b) = true.
Proof.
  rewrite !all_chars_app, !digits_no_space. reflexivity.
Qed.

(** X19. A selection written [a-b] with two numerals is the ascending run
    from [max(1, min(a, max_episode))] to [max(1, min(b, max_episode))]:
    both ends are clamped into the series, so a range beyond the last
    episode selects the last episode, and a range written backwards selects
    nothing. *)
Theorem written_range (a b : N) (max_episode : Z) :
  let lo := Z.max 1 (Z.min (Z.of_N a) max_episode) in
  let hi := Z.max 1 (Z.min (Z.of_N b) max_episode) in
  Cli.parse_episode_range (Py.digits a ++ "-" ++ Py.digits b) max_episode
  = seqZ lo (hi + 1 - lo).
Proof.
  intros lo hi. unfold Cli.parse_episode_range.
  assert (String.eqb (Py.lower (Py.digits a ++ "-" ++ Py.digits b)) "all" = false)
    as ->.
  { destruct (digits_shape a) as (c & r & -> & Hc & _).
    rewrite string_app_cons. by apply lower_head, digit_lower. }
  rewrite split_single.
  2:{ rewrite !contains_app, !digits_no_char by done. reflexivity. }
  simpl. unfold Cli.parse_part.
  rewrite (strip_id _ (range_text_plain a b)).
  rewrite !contains_app. simpl. rewrite orb_true_r. simpl.
  rewrite match_range_digits. fold lo hi.
  rewrite (left_id_L ∅ (∪)). unfold Py.range.
  apply sorted_of_ascending, seqZ_ascending.
Qed.

(** X20. A selection that is one number written out selects that number
    when it lies between 1 and [max_episode], and nothing otherwise; a
    negative number is read as a range without a start and selects
    nothing. *)
Theorem written_number (n max_episode : Z) :
  Cli.parse_episode_range (Py.str_int n) max_episode
  = if ((1 <=? n) && (n <=? max_episode))%Z then [n] else [].
Proof.
  unfold Cli.parse_episode_range.
  destruct (Z.ltb_spec n 0) as [Hn|Hn].
  - rewrite (str_int_neg n Hn).
    rewrite lower_head by done.
    rewrite split_single.
    2:{ simpl. by rewrite digits_no_char. }
    simpl. unfold Cli.parse_part.
    rewrite strip_id by (simpl; apply digits_no_space).
    simpl. unfold Cli.match_range. simpl.
    destruct (Z.leb_spec 1 n); [lia|]. reflexivity.
  - rewrite (str_int_nonneg n Hn).
    assert (String.eqb (Py.lower (Py.digits (Z.to_N n))) "all" = false) as ->.
    { destruct (digits_shape (Z.to_N n)) as (c & r & -> & Hc & _).
      by apply lower_head, digit_lower. }
    rewrite split_single by by apply digits_no_char.
    simpl. unfold Cli.parse_part.
    rewrite (strip_id _ (digits_no_space _)).
    rewrite digits_no_char by done.
    rewrite int_of_str_digits, Z2N.id by done.
    destruct (_ && _)%Z.
    + rewrite (left_id_L ∅ (∪)).
      transitivity (Cli.sorted (list_to_set [n])); [f_equal; set_solver|].
      apply sorted_of_ascending. repeat constructor.
    + reflexivity.
Qed.

(** What one group selects when it is a range of two numerals, and when
    it is one number written out. *)
Lemma selection_range (a b : N) (max_episode : Z) :
  selection max_episode (Py.digits a ++ "-" ++ Py.digits b)
  = list_to_set
      (Py.range (Z.max 1 (Z.min (Z.of_N a) max_episode))
                (Z.max 1 (Z.min (Z.of_N b) max_episode) + 1)).
Proof.
  unfold selection. rewrite split_single.
  2:{ rewrite !contains_app, !digits_no_char by done. reflexivity. }
  simpl. unfold Cli.parse_part.
  rewrite (strip_id _ (range_text_plain a b)).
  rewrite !contains_app. simpl. rewrite orb_true_r. simpl.
  rewrite match_range_digits. apply (left_id_L ∅ (∪)).
Qed.

Lemma selection_number (n max_episode : Z) :
  selection max_episode (Py.str_int n)
  = if ((1 <=? n) && (n <=? max_episode))%Z then {[ n ]} else ∅.
Proof.
  unfold selection. destruct (Z.ltb_spec n 0) as [Hn|Hn].
  - rewrite (str_int_neg n Hn). rewrite split_single.
    2:{ simpl. by rewrite digits_no_char. }
    simpl. unfold Cli.parse_part.
    rewrite strip_id by (simpl; apply digits_no_space).
    simpl. unfold Cli.match_range. simpl.
    destruct (Z.leb_spec 1 n); [lia|]. reflexivity.
  - rewrite (str_int_nonneg n Hn).
    rewrite split_single by by apply digits_no_char.
    simpl. unfold Cli.parse_part.
    rewrite (strip_id _ (digits_no_space _)).
    rewrite digits_no_char by done.
    rewrite int_of_str_digits, Z2N.id by done.
    destruct (_ && _)%Z; [apply (left_id_L ∅ (∪))|done].
Qed.

Lemma numeral_is_not_all (n : N) (t : string) :
  String.eqb (Py.lower (Py.digits n ++ t)) "all" = false.
Proof.
  destruct (digits_shape n) as (c & r & -> & Hc & _).
  rewrite string_app_cons. by apply lower_head, digit_lower.
Qed.

(** C8. [parse_episode_range] on the four selections of the specification,
    and in general.  The result is strictly ascending, hence without
    duplicates.  A selection of two groups joined by a comma is the sorted
    union of what the groups select.  A group [a-b] of two numerals selects
    the run from [max(1, min(a, max_episode))] to
    [max(1, min(b, max_episode))]: both bounds are clamped.  A group that is
    one number selects that number when it lies in [1, max_episode] and is
    dropped otherwise.  For a series with at least one episode every
    episode selected lies in [1, max_episode]. *)
Theorem parse_episode_range_selection :
  Cli.parse_episode_range "1-5,10,15-20" 20
    = [1; 2; 3; 4; 5; 10; 15; 16; 17; 18; 19; 20]%Z
  ∧ (∀ n : Z, Cli.parse_episode_range "all" n = seqZ 1 n)
  ∧ Cli.parse_episode_range "25" 20 = []
  ∧ Cli.parse_episode_range "0-3" 20 = [1; 2; 3]%Z
  ∧ (∀ episode_str max_episode,
       StronglySorted Z.lt (Cli.parse_episode_range episode_str max_episode))
  ∧ (∀ x y max_episode,
       Cli.parse_episode_range (x ++ "," ++ y) max_episode
       = Cli.sorted (selection max_episode x ∪ selection max_episode y))
  ∧ (∀ (a b : N) max_episode,
       let lo := Z.max 1 (Z.min (Z.of_N a) max_episode) in
       let hi := Z.max 1 (Z.min (Z.of_N b) max_episode) in
       selection max_episode (Py.digits a ++ "-" ++ Py.digits b)
       = list_to_set (seqZ lo (hi + 1 - lo))
       ∧ Cli.parse_episode_range (Py.digits a ++ "-" ++ Py.digits b)
           max_episode
         = seqZ lo (hi + 1 - lo))
  ∧ (∀ n max_episode,
       selection max_episode (Py.str_int n)
       = (if ((1 <=? n) && (n <=? max_episode))%Z then {[ n ]} else ∅)
       ∧ Cli.parse_episode_range (Py.str_int n) max_episode
         = if ((1 <=? n) && (n <=? max_episode))%Z then [n] else [])
  ∧ (∀ episode_str max_episode,
       (1 ≤ max_episode)%Z →
       Forall (within max_episode)
         (Cli.parse_episode_range episode_str max_episode)).
Proof.
  split; [by vm_compute|].
  split.
  { intros n. unfold Cli.parse_episode_range. simpl.
    unfold Py.range. f_equal. lia. }
  split; [by vm_compute|].
  split; [by vm_compute|].
  split.
  { intros str m. unfold Cli.parse_episode_range.
    destruct (String.eqb _ _); [|apply sorted_ascending].
    unfold Py.range. generalize (m + 1 - 1)%Z 1%Z. intros n a.
    apply seqZ_ascending. }
  split.
  { intros x y m. unfold Cli.parse_episode_range.
    change (x ++ "," ++ y) with (x ++ String "," y).
    rewrite comma_is_not_all by apply contains_comma_app.
    fold (selection m (x ++ String "," y)).
    by rewrite selection_app. }
  split.
  { intros a b m lo hi. split; [apply selection_range|].
    unfold Cli.parse_episode_range. rewrite numeral_is_not_all.
    fold (selection m (Py.digits a ++ "-" ++ Py.digits b)).
    rewrite selection_range. fold lo hi. unfold Py.range.
    apply sorted_of_ascending, seqZ_ascending. }
  split.
  { intros n m. split; [apply selection_number|].
    unfold Cli.parse_episode_range.
    assert (String.eqb (Py.lower (Py.str_int n)) "all" = false) as ->.
    { destruct (Z.ltb_spec n 0) as [Hn|Hn].
      - rewrite (str_int_neg n Hn). by apply lower_head.
      - rewrite (str_int_nonneg n Hn), <- (string_app_nil_r (Py.digits _)).
        apply numeral_is_not_all. }
    fold (selection m (Py.str_int n)). rewrite selection_number.
    destruct (_ && _)%Z; [|done].
    transitivity (Cli.sorted (list_to_set [n])); [f_equal; set_solver|].
    apply sorted_of_ascending. repeat constructor. }
  intros str m Hm. unfold Cli.parse_episode_range.
  destruct (String.eqb _ _).
  - apply Forall_forall. intros x Hx. unfold Py.range in Hx.
    apply elem_of_seqZ in Hx. unfold within. lia.
  - apply Forall_forall. intros x Hx. apply elem_of_sorted in Hx.
    revert x Hx. apply foldl_parse_part_within; [done|].
    intros x Hx. set_solver.
Qed.

End Written.

(** Witness of the bound on the selection, for a series of 20 episodes. *)
Lemma parse_episode_range_selection_witness :
  Forall (within 20) (Cli.parse_episode_range "0-3,25,18-40" 20).
Proof.
  apply (proj2 (proj2 (proj2 (proj2 (proj2 (proj2 (proj2 (proj2
           parse_episode_range_selection)))))))).
  lia.
Defined.

(** ** The name of the merged file *)

Section Names.

Abbreviation allowed := (λ c : ascii, negb (Driver.forbidden c)).

Lemma remove_forbidden_allowed (s : string) :
  all_chars allowed (Driver.remove_forbidden s) = true.
Proof.
  induction s as [|c s IH]; simpl; [done|].
  destruct (Driver.forbidden c) eqn:E; simpl; [done|]. by rewrite E.
Qed.

Lemma remove_forbidden_id (s : string) :
  all_chars allowed s = true → Driver.remove_forbidden s = s.
Proof.
  induction s as [|c s IH]; simpl; [done|].
  intros [Hc Hs]%andb_true_iff. apply negb_true_iff in Hc.
  by rewrite Hc, (IH Hs).
Qed.

Lemma remove_forbidden_length (s : string) :
  (String.length (Driver.remove_forbidden s) ≤ String.length s)%nat.
Proof.
  induction s as [|c s IH]; simpl; [done|].
  destruct (Driver.forbidden c); simpl; lia.
Qed.

Lemma squeeze_allowed (run : bool) (s : string) :
  all_chars allowed s = true → all_chars allowed (Driver.squeeze run s) = true.
Proof.
  revert run. induction s as [|c s IH]; intros run; simpl; [done|].
  intros [Hc Hs]%andb_true_iff.
  destruct (Py.isspace c); [destruct run|]; simpl; rewrite ?Hc; by apply IH.
Qed.

Lemma squeeze_single_blanks (run : bool) (s : string) :
  single_blanks run (Driver.squeeze run s) = true.
Proof.
  revert run. induction s as [|c s IH]; intros run; simpl; [done|].
  destruct (Py.isspace c) eqn:E; [destruct run|]; simpl; rewrite ?E; apply IH.
Qed.

Lemma squeeze_id (run : bool) (s : string) :
  single_blanks run s = true → Driver.squeeze run s = s.
Proof.
  revert run. induction s as [|c s IH]; intros run; simpl; [done|].
  destruct (Py.isspace c).
  - intros [[Hc Hr]%andb_true_iff Hs]%andb_true_iff.
    apply Ascii.eqb_eq in Hc as ->. apply negb_true_iff in Hr as ->.
    by rewrite (IH _ Hs).
  - intros Hs. by rewrite (IH _ Hs).
Qed.

Lemma squeeze_length (run : bool) (s : string) :
  (String.length (Driver.squeeze run s) ≤ String.length s)%nat.
Proof.
  revert run. induction s as [|c s IH]; intros run; simpl; [done|].
  pose proof (IH true). pose proof (IH false).
  destruct (Py.isspace c); [destruct run|]; simpl; lia.
Qed.

Lemma single_blanks_weaken (run : bool) (s : string) :
  single_blanks true s = true → single_blanks run s = true.
Proof.
  destruct s as [|c s]; simpl; [done|].
  destruct (Py.isspace c); [|done]. rewrite andb_false_r. done.
Qed.

Lemma lstrip_all (f : ascii → bool) (s : string) :
  all_chars f s = true → all_chars f (Py.lstrip s) = true.
Proof.
  induction s as [|c s IH]; simpl; [done|].
  intros [Hc Hs]%andb_true_iff.
  destruct (Py.isspace c); [by apply IH|]. simpl. by rewrite Hc.
Qed.

Lemma rstrip_all (f : ascii → bool) (s : string) :
  all_chars f s = true → all_chars f (Py.rstrip s) = true.
Proof.
  induction s as [|c s IH]; simpl; [done|].
  intros [Hc Hs]%andb_true_iff. specialize (IH Hs).
  destruct (Py.rstrip s); [destruct (Py.isspace c)|]; simpl in *;
    rewrite ?Hc; done.
Qed.

Lemma lstrip_single_blanks (run run' : bool) (s : string) :
  single_blanks run s = true → single_blanks run' (Py.lstrip s) = true.
Proof.
  revert run. induction s as [|c s IH]; intros run; simpl; [done|].
  destruct (Py.isspace c) eqn:E.
  - intros [_ Hs]%andb_true_iff. by apply (IH true).
  - simpl. by rewrite E.
Qed.

Lemma rstrip_single_blanks (run : bool) (s : string) :
  single_blanks run s = true → single_blanks run (Py.rstrip s) = true.
Proof.
  revert run. induction s as [|c s IH]; intros run; simpl; [done|].
  destruct (Py.isspace c) eqn:E.
  - intros [Hc Hs]%andb_true_iff. specialize (IH _ Hs).
    destruct (Py.rstrip s); simpl in *; rewrite ?E; [done|].
    by rewrite Hc.
  - intros Hs. specialize (IH _ Hs).
    destruct (Py.rstrip s); simpl in *; by rewrite ?E.
Qed.

Lemma lstrip_length (s : string) :
  (String.length (Py.lstrip s) ≤ String.length s)%nat.
Proof.
  induction s as [|c s IH]; simpl; [done|].
  destruct (Py.isspace c); simpl; lia.
Qed.

Lemma rstrip_length (s : string) :
  (String.length (Py.rstrip s) ≤ String.length s)%nat.
Proof.
  induction s as [|c s IH]; simpl; [done|].
  destruct (Py.rstrip s); [destruct (Py.isspace c)|]; simpl in *; lia.
Qed.

Lemma rstrip_ends_clean (s : string) : ends_clean (Py.rstrip s) = true.
Proof.
  induction s as [|c s IH]; simpl; [done|].
  destruct (Py.rstrip s) as [|c' r]; [|exact IH].
  destruct (Py.isspace c) eqn:E; simpl; [done|]. by rewrite E.
Qed.

Lemma rstrip_fixed (s : string) : ends_clean s = true → Py.rstrip s = s.
Proof.
  induction s as [|c s IH]; simpl; [done|].
  destruct s as [|c' r].
  - simpl. intros H. apply negb_true_iff in H. by rewrite H.
  - intros H. by rewrite (IH H).
Qed.

Lemma lstrip_fixed (s : string) :
  single_blanks true s = true → Py.lstrip s = s.
Proof.
  destruct s as [|c s]; simpl; [done|].
  destruct (Py.isspace c); [|done]. by rewrite andb_false_r.
Qed.

Lemma prefix_all (f : ascii → bool) (n : nat) (s : string) :
  all_chars f s = true → all_chars f (String.substring 0 n s) = true.
Proof.
  revert s. induction n as [|n IH]; intros [|c s]; simpl; try done.
  intros [Hc Hs]%andb_true_iff. by rewrite Hc, IH.
Qed.

Lemma prefix_single_blanks (run : bool) (n : nat) (s : string) :
  single_blanks run s = true
  → single_blanks run (String.substring 0 n s) = true.
Proof.
  revert run s. induction n as [|n IH]; intros run [|c s]; simpl; try done.
  destruct (Py.isspace c).
  - intros [Hc Hs]%andb_true_iff. by rewrite Hc, IH.
  - apply IH.
Qed.

Lemma prefix_length (n : nat) (s : string) :
  (String.length (String.substring 0 n s) ≤ n)%nat.
Proof.
  revert s. induction n as [|n IH]; intros [|c s]; simpl; try lia.
  specialize (IH s). lia.
Qed.

(** X21. The name [sanitize_filename] returns has at most 100 characters,
    none of them forbidden (so no slash: the merged file stays in the
    output directory), it does not start with white space, and every
    white space character in it is a single blank between two other
    characters or, after a cut at 100 characters, at the very end. *)
Theorem sanitize_filename_shape (name : string) :
  let r := Driver.sanitize_filename name in
  (String.length r ≤ 100)%nat
  ∧ all_chars allowed r = true
  ∧ single_blanks true r = true
  ∧ ((String.length name ≤ 100)%nat → ends_clean r = true).
Proof.
  unfold Driver.sanitize_filename. cbv zeta.
  set (t := Py.strip _).
  assert (all_chars allowed t = true) as Ha.
  { apply rstrip_all, lstrip_all, squeeze_allowed, remove_forbidden_allowed. }
  assert (single_blanks true t = true) as Hb.
  { apply rstrip_single_blanks, (lstrip_single_blanks false),
      squeeze_single_blanks. }
  assert (String.length t ≤ String.length name)%nat as Hl.
  { unfold t, Py.strip.
    etrans; [apply rstrip_length|]. etrans; [apply lstrip_length|].
    etrans; [apply squeeze_length|]. apply remove_forbidden_length. }
  destruct (Nat.ltb_spec 100 (String.length t)) as [Hlong|Hshort].
  - split; [apply prefix_length|].
    split; [by apply prefix_all|].
    split; [by apply prefix_single_blanks|]. lia.
  - split; [done|]. split; [done|]. split; [done|].
    intros _. apply rstrip_ends_clean.
Qed.

(** X22. A name that is already clean is returned as it is: at most 100
    characters, no forbidden one, single blanks only, no white space at
    either end.  In particular [sanitize_filename] applied twice to a name
    of at most 100 characters gives what it gives applied once. *)
Theorem sanitize_filename_fixed (name : string) :
  ((String.length name ≤ 100)%nat →
   all_chars allowed name = true →
   single_blanks true name = true →
   ends_clean name = true →
   Driver.sanitize_filename name = name)
  ∧ ((String.length name ≤ 100)%nat →
     Driver.sanitize_filename (Driver.sanitize_filename name)
     = Driver.sanitize_filename name).
Proof.
  assert (∀ s, (String.length s ≤ 100)%nat → all_chars allowed s = true →
               single_blanks true s = true → ends_clean s = true →
               Driver.sanitize_filename s = s) as Hfix.
  { intros s Hl Ha Hb He. unfold Driver.sanitize_filename. cbv zeta.
    rewrite (remove_forbidden_id s Ha).
    rewrite (squeeze_id false s (single_blanks_weaken false s Hb)).
    unfold Py.strip. rewrite (lstrip_fixed s Hb), (rstrip_fixed s He).
    by destruct (Nat.ltb_spec 100 (String.length s)); [lia|]. }
  split; [apply Hfix|].
  intros Hl. unfold Driver.sanitize_filename at 2 3. cbv zeta.
  set (t := Py.strip _).
  assert (String.length t ≤ String.length name)%nat as Hlt.
  { unfold t, Py.strip.
    etrans; [apply rstrip_length|]. etrans; [apply lstrip_length|].
    etrans; [apply squeeze_length|]. apply remove_forbidden_length. }
  destruct (Nat.ltb_spec 100 (String.length t)) as [Hlong|Hshort]; [lia|].
  apply Hfix; [done|..].
  - apply rstrip_all, lstrip_all, squeeze_allowed, remove_forbidden_allowed.
  - apply rstrip_single_blanks, (lstrip_single_blanks false),
      squeeze_single_blanks.
  - apply rstrip_ends_clean.
Qed.

End Names.

(** Witness: a title of eight characters comes out without white space at
    its end. *)
Lemma sanitize_filename_shape_witness :
  ends_clean (Driver.sanitize_filename " a  b/c ") = true.
Proof.
  refine (proj2 (proj2 (proj2 (sanitize_filename_shape " a  b/c "))) _).
  simpl. lia.
Defined.

(** Witness: the name [a b] is clean and comes back as it is. *)
Lemma sanitize_filename_fixed_witness :
  Driver.sanitize_filename "a b" = "a b".
Proof.
  refine (proj1 (sanitize_filename_fixed "a b") _ _ _ _).
  - simpl. lia.
  - reflexivity.
  - reflexivity.
  - reflexivity.
Defined.

(** The cut at 100 characters can leave a blank at the end, which a second
    application removes: 99 letters, a blank and a letter. *)
Lemma sanitize_filename_cut_leaves_blank :
  let name := (Py.zeros 99 ++ " x")%string in
  Driver.sanitize_filename (name ++ "y")
  = (Py.zeros 99 ++ " ")%string
  ∧ Driver.sanitize_filename (Driver.sanitize_filename (name ++ "y"))
    = Py.zeros 99.
Proof. vm_compute. done. Qed.

(** ** Reading the series out of an address *)

Section Addresses.

Local Open Scope string_scope.

Lemma search_hit {A} (m : string → option A) (s : string) (v : A) :
  m s = Some v → Parser.search m s = Some v.
Proof. intros H. destruct s; simpl; by rewrite H. Qed.

(** A pattern that starts with the character [c] is not found in a text
    without [c]. *)
Lemma search_skip {A} (m : string → option A) (c : ascii) (s t : string) :
  (∀ x r, x ≠ c → m (String x r) = None) →
  Py.contains c s = false →
  Parser.search m (s ++ t) = Parser.search m t.
Proof.
  intros Hm. induction s as [|x s IH];
    rewrite ?string_app_nil, ?string_app_cons; simpl; [done|].
  intros [Hx Hs]%orb_false_iff. apply Ascii.eqb_neq in Hx.
  by rewrite (Hm x _ Hx), (IH Hs).
Qed.

Lemma search_none {A} (m : string → option A) (c : ascii) (s : string) :
  (∀ x r, x ≠ c → m (String x r) = None) → m "" = None →
  Py.contains c s = false → Parser.search m s = None.
Proof.
  intros Hm Hnil Hs. rewrite <- (string_app_nil_r s).
  rewrite (search_skip m c s "" Hm Hs). simpl. by rewrite Hnil.
Qed.

Lemma strip_prefix_cons (a b : ascii) (p s : string) :
  Parser.strip_prefix (String a p) (String b s)
  = if Ascii.eqb a b then Parser.strip_prefix p s else None.
Proof. reflexivity. Qed.

Lemma match_query_head (x : ascii) (r : string) :
  x ≠ "s"%char → Parser.match_query (String x r) = None.
Proof.
  intros Hx. unfold Parser.match_query. rewrite strip_prefix_cons.
  destruct (Ascii.eqb_spec "s" x) as [<-|]; done.
Qed.

Lemma match_path_head (x : ascii) (r : string) :
  x ≠ "/"%char → Parser.match_path (String x r) = None.
Proof.
  intros Hx. unfold Parser.match_path. rewrite strip_prefix_cons.
  destruct (Ascii.eqb_spec "/" x) as [<-|]; done.
Qed.

Lemma contains_cons (c a : ascii) (r : string) :
  Py.contains c (String a r) = Ascii.eqb a c || Py.contains c r.
Proof. reflexivity. Qed.

Lemma str_int_no_char (c : ascii) (z : Z) :
  Py.isdigit c = false → c ≠ "-"%char → Py.contains c (Py.str_int z) = false.
Proof.
  intros Hc Hm. destruct (Z.ltb_spec z 0) as [Hz|Hz].
  - rewrite (str_int_neg z Hz), contains_cons, digits_no_char by done.
    destruct (Ascii.eqb_spec "-" c) as [<-|]; done.
  - rewrite (str_int_nonneg z Hz). by apply digits_no_char.
Qed.

(** The parameter [series_id=n] read at the start of a text. *)
Lemma match_query_digits (n : N) (rest : string) :
  (rest = "" ∨ ∃ c r, rest = String c r ∧ Py.isdigit c = false) →
  Parser.match_query ("series_id=" ++ Py.digits n ++ rest) = Some (Z.of_N n).
Proof.
  intros Hrest. unfold Parser.match_query.
  rewrite !string_app_cons, string_app_nil. simpl.
  rewrite (span_digits_app _ _ (digits_all_digits n) Hrest).
  rewrite digits_val_digits.
  by destruct (digits_shape n) as (c & r & -> & _).
Qed.

(** The component [/series/n] read at the start of a text. *)
Lemma match_path_digits (n : N) (rest : string) :
  (rest = "" ∨ ∃ r, rest = String "/" r) →
  Parser.match_path ("/series/" ++ Py.digits n ++ rest) = Some (Z.of_N n).
Proof.
  intros Hrest. unfold Parser.match_path.
  rewrite !string_app_cons, string_app_nil. simpl.
  rewrite (span_digits_app _ rest (digits_all_digits n)).
  2:{ destruct Hrest as [->|[r ->]]; [by left|right; by eexists _, _]. }
  rewrite digits_val_digits.
  destruct (digits_shape n) as (c & r & -> & _).
  by destruct Hrest as [->|[r' ->]].
Qed.

(** How the two searches pass over the fixed parts of the addresses. *)
Lemma query_skips_base (t : string) :
  Parser.search Parser.match_query (Parser.BASE_URL ++ "?" ++ t)
  = Parser.search Parser.match_query t.
Proof. reflexivity. Qed.

Lemma query_skips_minus (t : string) :
  Parser.search Parser.match_query ("series_id=" ++ String "-" t)
  = Parser.search Parser.match_query t.
Proof. reflexivity. Qed.

Lemma path_skips_base (t : string) :
  Parser.search Parser.match_path (Parser.BASE_URL ++ "?series_id=" ++ t)
  = Parser.search Parser.match_path t.
Proof. reflexivity. Qed.

Lemma query_skips_page (t : string) :
  Parser.search Parser.match_query ("https://rongyok.com/series/" ++ t)
  = Parser.search Parser.match_query t.
Proof. reflexivity. Qed.

Lemma path_skips_origin (t : string) :
  Parser.search Parser.match_path ("https://rongyok.com" ++ t)
  = Parser.search Parser.match_path t.
Proof. reflexivity. Qed.

(** An address with the parameter [series_id] after the base address. *)
Lemma parse_query_url (series_id : Z) (rest : string) :
  (rest = "" ∨ ∃ c r, rest = String c r ∧ Py.isdigit c = false) →
  Py.contains "s" rest = false → Py.contains "/" rest = false →
  Parser.parse_series_url
    (Parser.BASE_URL ++ "?" ++ "series_id=" ++ Py.str_int series_id ++ rest)
  = if (0 <=? series_id)%Z then Some series_id else None.
Proof.
  intros Hrest Hs Hslash. unfold Parser.parse_series_url.
  rewrite query_skips_base.
  destruct (Z.leb_spec 0 series_id) as [Hz|Hz].
  - rewrite (str_int_nonneg _ Hz).
    rewrite (search_hit _ _ _ (match_query_digits _ rest Hrest)).
    f_equal. lia.
  - rewrite (str_int_neg _ Hz).
    change (String "-" ?d ++ rest) with (String "-" (d ++ rest)).
    rewrite query_skips_minus.
    rewrite (search_none _ "s"); [|apply match_query_head|done|].
    2:{ by rewrite contains_app, digits_no_char, Hs. }
    change (Parser.BASE_URL ++ "?" ++ "series_id=" ++ ?t)
      with (Parser.BASE_URL ++ "?series_id=" ++ t).
    rewrite path_skips_base.
    apply (search_none _ "/"); [apply match_path_head|done|].
    simpl. by rewrite contains_app, digits_no_char, Hslash.
Qed.

(** X23. The addresses the parser builds are read back: from the address
    of a series page, and from the address of an episode page,
    [parse_series_url] gives the series id the address was built from when
    that id is not negative, and nothing when it is negative (the sign is
    no digit).  The id 0 is read back as 0. *)
Theorem built_addresses_read_back (series_id episode : Z) :
  Parser.parse_series_url (Parser.series_url series_id)
  = (if (0 <=? series_id)%Z then Some series_id else None)
  ∧ Parser.parse_series_url (Parser.episode_url series_id episode)
    = (if (0 <=? series_id)%Z then Some series_id else None).
Proof.
  split.
  - rewrite <- (parse_query_url series_id "") by (done || by left).
    by rewrite string_app_nil_r.
  - rewrite <- (parse_query_url series_id ("&ep=" ++ Py.str_int episode)).
    + reflexivity.
    + right. by eexists _, _.
    + rewrite contains_app. by rewrite str_int_no_char.
    + rewrite contains_app. by rewrite str_int_no_char.
Qed.

(** X24. The address of a series page, [https://rongyok.com/series/n], is
    read as series [n], with or without a path after the number; but a
    parameter [series_id] anywhere in that path takes precedence over the
    number of the page. *)
Theorem page_address_read (n : N) (rest : string) :
  Parser.parse_series_url ("https://rongyok.com/series/" ++ Py.digits n)
  = Some (Z.of_N n)
  ∧ Parser.parse_series_url
      ("https://rongyok.com/series/" ++ Py.digits n ++ "/" ++ rest)
    = match Parser.search Parser.match_query rest with
      | Some series_id => Some series_id
      | None => Some (Z.of_N n)
      end.
Proof.
  unfold Parser.parse_series_url. split.
  - rewrite query_skips_page.
    rewrite (search_none _ "s");
      [|apply match_query_head|done|by apply digits_no_char].
    change ("https://rongyok.com/series/" ++ ?t)
      with ("https://rongyok.com" ++ "/series/" ++ t).
    rewrite path_skips_origin.
    apply search_hit.
    rewrite <- (string_app_nil_r (Py.digits n)).
    apply match_path_digits. by left.
  - rewrite query_skips_page.
    rewrite (search_skip _ "s"); [|apply match_query_head|by apply digits_no_char].
    change (Parser.search Parser.match_query ("/" ++ rest))
      with (Parser.search Parser.match_query rest).
    destruct (Parser.search Parser.match_query rest); [done|].
    change ("https://rongyok.com/series/" ++ ?t)
      with ("https://rongyok.com" ++ "/series/" ++ t).
    rewrite path_skips_origin.
    apply search_hit, match_path_digits. right. by eexists.
Qed.

End Addresses.

(** ** The loop of the command line *)

Section Driving.

Import Engine.

Lemma download_episodes_from_counts find server skip_merge episodes
    d k i s0 f0 log s f m :
  Driver.run_ended
    (Driver.download_episodes_from find d k server episodes skip_merge
       i s0 f0 log)
  = Finished (Returned (s, f, m)) →
  (s0 ≤ s ∧ f0 ≤ f ∧ s + f = s0 + f0 + Z.of_nat (length episodes))%Z
  ∧ m = negb skip_merge && (0 <? s)%Z.
Proof.
  revert d k i s0 f0 log.
  induction episodes as [|e episodes IH]; intros d k i s0 f0 log; simpl.
  { intros [= <- <- <-]. split; [lia|done]. }
  destruct (match state d with Some _ => _ | None => _ end).
  { intros H. apply IH in H. split; [lia|tauto]. }
  destruct (find i e) as [[[title url]|]|]; [| |done].
  - destruct (ended (download_episode d k server _)) as [[[|]|]|]; try done;
      intros H; apply IH in H; (split; [lia|tauto]).
  - intros H. apply IH in H. split; [lia|tauto].
Qed.

Lemma download_episodes_from_requests find server skip_merge episodes
    d k i s0 f0 log :
  (length (Driver.run_requests
             (Driver.download_episodes_from find d k server episodes
                skip_merge i s0 f0 log))
   ≤ length log + length episodes)%nat.
Proof.
  revert d k i s0 f0 log.
  induction episodes as [|e episodes IH]; intros d k i s0 f0 log; simpl; [lia|].
  destruct (match state d with Some _ => _ | None => _ end).
  { specialize (IH d k (S i) (s0 + 1)%Z f0 log). lia. }
  destruct (find i e) as [[[title url]|]|]; simpl; [| |lia].
  - match goal with
    | |- context [download_episode d k server ?ei] =>
        pose proof (download_episode_requests_length d k server ei) as H1;
        destruct (ended (download_episode d k server ei)) as [[[|]|]|]
    end; simpl; rewrite ?length_app; try lia;
      match goal with
      | |- context [Driver.download_episodes_from find ?d' ?k' server
                      episodes skip_merge ?j ?a ?b ?l] =>
          specialize (IH d' k' j a b l); rewrite length_app in IH; lia
      end.
  - specialize (IH d k (S i) s0 (f0 + 1)%Z log). lia.
Qed.

(** X25. The loop of the command line counts every episode exactly once:
    whenever [download_episodes] gets to its summary, successful + failed
    is the number of episodes it was given, whatever the control signals
    and whatever the servers answer (a cancelled transfer counts as
    failed and the loop goes on).  The downloader has then sent at most
    one request per episode, and the merge is asked for exactly when it is
    not switched off and at least one episode succeeded. *)
Theorem every_episode_is_counted find d k server episodes skip_merge
    successful failed merges :
  Driver.run_ended
    (Driver.download_episodes find d k server episodes skip_merge)
  = Finished (Returned (successful, failed, merges)) →
  (successful + failed = Z.of_nat (length episodes))%Z
  ∧ (0 ≤ successful)%Z ∧ (0 ≤ failed)%Z
  ∧ merges = negb skip_merge && (0 <? successful)%Z
  ∧ (length (Driver.run_requests
               (Driver.download_episodes find d k server episodes skip_merge))
     ≤ length episodes)%nat.
Proof.
  unfold Driver.download_episodes. intros H.
  apply download_episodes_from_counts in H as [H ->].
  pose proof (download_episodes_from_requests find server skip_merge episodes
                d k 0 0%Z 0%Z []) as Hr.
  simpl in Hr. repeat split; [lia..|exact Hr].
Qed.

End Driving.

(** Witness: of the episodes 1 and 2, the first is downloaded and the
    second has no address; the summary counts one success and one
    failure, and the merge is asked for. *)
Lemma every_episode_is_counted_witness :
  (1 + 1 = Z.of_nat (length [1; 2]%Z))%Z.
Proof.
  refine (proj1
    (every_episode_is_counted
       (λ _ ep, Returned (if (ep =? 1)%Z
                          then Some ("Episode 1", "http://example.com/video.mp4")
                          else None))
       Sample.engine Sample.disk
       (Sample.full_content "1000" [Engine.Chunk (Sample.xs 1000)])
       [1; 2]%Z false 1 1 true _)).
  vm_compute. reflexivity.
Defined.

(** ** Failures of the network and of the file system *)

Section Failures.

Import Engine.

Variable episode : Z.
Variable total_bytes : Z.
Variables temp_file output_file : Path.
Variable log : list Request.

(** On a disk that refuses nothing a turn of the loop goes on, on a disk
    that refuses nothing, or stops the call with [False]. *)
Lemma body_healthy c t :
  healthy (dk t) →
  match body episode total_bytes temp_file log c t with
  | Continue t' => healthy (dk t')
  | Stop r => ended r = Finished (Returned false)
  end.
Proof.
  intros Hk. unfold body. destruct (_cancelled (dl t)).
  { destruct (save_and_return_ended log false (dl t) (dk t)) as [E|[_ Hn]];
      [done|by destruct Hn]. }
  destruct c as [|b c]; [done|].
  unfold write. pose proof Hk as Hk'. unfold healthy in Hk'. rewrite Hk'. simpl.
  destruct (state (dl t)) as [s|]; [|done].
  destruct (_ <=? _)%Z; [|done].
  unfold _save_state. simpl. by rewrite Hk'.
Qed.

(** A body that breaks never gives [True], and on a disk that refuses
    nothing it gives no exception either: the call returns [False], or it
    is still held by a pause. *)
Lemma stream_broken evs pending t :
  healthy (dk t) → Broken ∈ evs →
  let r := stream episode total_bytes temp_file output_file log evs pending t in
  ended r = Finished (Returned false) ∨ ended r = Waiting.
Proof.
  revert pending t. induction evs as [|ev rest IH]; intros pending t Hk Hin.
  { by apply elem_of_nil in Hin. }
  assert (∀ c t', healthy (dk t') → Broken ∈ rest →
            let r := match body episode total_bytes temp_file log c t' with
                     | Continue t'' =>
                         stream episode total_bytes temp_file output_file log
                           rest None t''
                     | Stop r => r
                     end in
            ended r = Finished (Returned false) ∨ ended r = Waiting) as Hbody.
  { intros c t' Hk' Hin'. pose proof (body_healthy c t' Hk') as Hb.
    destruct (body _ _ _ _ c t') as [t''|r]; [by apply IH|by left]. }
  simpl. destruct pending as [c|], ev as [a|c'|]; try by right.
  - apply elem_of_cons in Hin as [?|Hin]; [done|].
    destruct (held _); [by apply IH|]. by apply Hbody.
  - apply elem_of_cons in Hin as [?|Hin]; [done|]. by apply IH.
  - apply elem_of_cons in Hin as [?|Hin]; [done|].
    destruct (held _); [by apply IH|]. by apply Hbody.
  - destruct (save_and_return_ended log false (dl t) (dk t)) as [E|[_ Hn]];
      [by left|by destruct Hn].
Qed.

End Failures.

Section CallFailures.

Import Engine.


End CallFailures.


(** The size header that [int] rejects does cross the boundary: the total
    in [Content-Range] is a star. *)
Lemma bad_header_escapes :
  Engine.ended
    (Engine.download_episode Sample.engine Sample.disk
       (Sample.partial_content "bytes 0-9/*" []) Sample.episode1)
  = Engine.Finished (Raised ValueError).
Proof. vm_compute. reflexivity. Qed.

(** ** Cancelling a transfer *)

Section CallCancelled.

Import Engine.

(** What a failed call leaves: the partial artifact, and a checkpoint of
    the episode that counts no more bytes than the artifact holds. *)
Lemma failed_call_covered (d : VideoDownloader) (k : Disk)
    (server : Request → Reply) (episode_info : EpisodeInfo)
    (status : Z) (hdrs : Headers) (evs : list event) (total m : Z) :
  let temp_file :=
    PathOps.with_suffix
      (get_episode_filename d (episode_number episode_info)) ".mp4.part" in
  let n := partial_size k temp_file in
  server (request_for episode_info n) = Response status hdrs evs →
  classify status hdrs n = Sized total m →
  let r := download_episode d k server episode_info in
  ended r = Finished (Returned false) →
  ∃ x, artifacts (disk r) !! temp_file = Some x
       ∧ ∀ s, state (downloader r) = Some s →
              checkpoint_within (episode_number episode_info) total
                (Z.of_nat (length x)) s.
Proof.
  intros tmp n Hs Hc r. subst r. rewrite download_episode_unfold. cbv zeta.
  fold tmp n. rewrite Hs, Hc.
  set (d1 := match state d with Some _ => _ | None => _ end).
  set (d2 := match state d1 with Some _ => _ | None => _ end).
  assert (∀ s, state d2 = Some s →
               checkpoint_within (episode_number episode_info) total m s)
    as Hd2.
  { unfold d2, d1. destruct (state d) eqn:E; simpl; rewrite ?E; [|done].
    intros s [= <-]. split; [done|]. eexists. by repeat split. }
  destruct (_save_state _ _) as [k1|] eqn:E1; [|done].
  apply save_state_sound in E1 as [Ea1 _].
  destruct (open_part _ _ _) as [k2|] eqn:E2; [|done].
  apply stream_covered.
  unfold open_part in E2. destruct (part_denied _); [done|].
  injection E2 as <-. simpl. eexists. rewrite lookup_insert_eq.
  split; [done|]. split; [|done].
  pose proof (partial_size_nonneg k tmp) as Hn. fold n in Hn.
  destruct (classify_sized _ _ _ _ _ Hc) as [[-> ->]|[-> ->]]; [|done].
  rewrite Ea1. destruct (Z.ltb_spec 0 n); simpl.
  - unfold n, partial_size in *. by destruct (artifacts k !! tmp).
  - lia.
Qed.


End CallCancelled.


